(** * FSM-based rescue agent (lab3_fsm_rescue_agent.py)

    A shallow embedding of the goal-directed finite-state machine of
    [RescueAgent]: the static transition table, the single transition gate
    [transition_to], alert intake, priority-based goal selection, response
    computation, mission completion and the cycle dispatcher, followed by
    the properties stated for them.

    Python objects are modelled by records, the mutable agent by explicit
    state passing through a small state-and-exception monad, and the wall
    clock by a stream of formatted readings consumed one per call of
    [datetime.now()]. *)

From Stdlib Require Import String Ascii List ZArith Bool Arith Lia.
From Stdlib Require Import Permutation Sorted.
Import ListNotations.
Open Scope string_scope.

(** ** Enumerations *)

Module DisasterType.

Inductive t : Set := NONE | FLOOD | EARTHQUAKE | FIRE | LANDSLIDE.

(** The [.value] of an enum member. *)
Definition value (d : t) : string :=
  match d with
  | NONE => "None"
  | FLOOD => "Flood"
  | EARTHQUAKE => "Earthquake"
  | FIRE => "Fire"
  | LANDSLIDE => "Landslide"
  end.

Definition eqb (a b : t) : bool :=
  match a, b with
  | NONE, NONE | FLOOD, FLOOD | EARTHQUAKE, EARTHQUAKE
  | FIRE, FIRE | LANDSLIDE, LANDSLIDE => true
  | _, _ => false
  end.

End DisasterType.

Module SeverityLevel.

Inductive t : Set := NONE | LOW | MODERATE | HIGH | CRITICAL.

Definition value (s : t) : Z :=
  match s with
  | NONE => 0
  | LOW => 1
  | MODERATE => 2
  | HIGH => 3
  | CRITICAL => 4
  end%Z.

(** The [.name] of an enum member. *)
Definition name (s : t) : string :=
  match s with
  | NONE => "NONE"
  | LOW => "LOW"
  | MODERATE => "MODERATE"
  | HIGH => "HIGH"
  | CRITICAL => "CRITICAL"
  end.

Definition eqb (a b : t) : bool :=
  match a, b with
  | NONE, NONE | LOW, LOW | MODERATE, MODERATE
  | HIGH, HIGH | CRITICAL, CRITICAL => true
  | _, _ => false
  end.

End SeverityLevel.

(** ** States and the static transition table *)

Definition STATE_IDLE : string := "IDLE".
Definition STATE_ALERT : string := "ALERT_RECEIVED".
Definition STATE_ASSESSING : string := "ASSESSING".
Definition STATE_RESPONDING : string := "RESPONDING".
Definition STATE_COMPLETING : string := "COMPLETING".

(** A Python dict read only through [.get(key, default)]: an association
    list with first-match lookup. *)
Fixpoint dict_get {K V : Type} (keq : K -> K -> bool)
  (d : list (K * V)) (k : K) (default : V) : V :=
  match d with
  | [] => default
  | (k', v) :: d' => if keq k' k then v else dict_get keq d' k default
  end.

Definition VALID_TRANSITIONS : list (string * list string) :=
  [ (STATE_IDLE, [STATE_ALERT]);
    (STATE_ALERT, [STATE_ASSESSING; STATE_IDLE]);
    (STATE_ASSESSING, [STATE_RESPONDING; STATE_IDLE]);
    (STATE_RESPONDING, [STATE_COMPLETING]);
    (STATE_COMPLETING, [STATE_IDLE]) ].

(** [x in l] on a list of strings. *)
Definition str_in (x : string) (l : list string) : bool :=
  existsb (String.eqb x) l.

(** The allowed-target list of a state: [VALID_TRANSITIONS.get(s, [])]. *)
Definition allowed_targets (s : string) : list string :=
  dict_get String.eqb VALID_TRANSITIONS s [].

(** ** Events, goals and the agent *)

(** The event dict built by [DisasterEnvironment.generate_event].  The three
    sensor readings are floats that are only ever interpolated into a log
    line; the record carries their rendering. *)
Record DisasterEvent : Set := mkEvent {
  zone : string;
  zone_name : string;
  disaster_type : DisasterType.t;
  severity : SeverityLevel.t;
  timestamp : string;
  temperature : string;
  water_level : string;
  seismic : string
}.

Record RescueGoal : Set := mkGoal {
  goal_type : string;
  priority : Z;
  target_zone : string;
  disaster_event : DisasterEvent;
  status : string;
  created_at : string
}.

Definition set_status (s : string) (g : RescueGoal) : RescueGoal :=
  mkGoal (goal_type g) (priority g) (target_zone g) (disaster_event g) s
         (created_at g).

(** An entry of [state_history]: [(state, timestamp, reason)]. *)
Definition HistoryEntry : Set := (string * string * string)%type.

Definition entry_state (e : HistoryEntry) : string := fst (fst e).

Record RescueAgent : Set := mkAgent {
  agent_id : string;
  current_state : string;
  goals : list RescueGoal;
  active_goal : option RescueGoal;
  state_history : list HistoryEntry;
  completed_missions : nat;
  execution_log : list string
}.

Definition set_current_state (s : string) (a : RescueAgent) : RescueAgent :=
  mkAgent (agent_id a) s (goals a) (active_goal a) (state_history a)
          (completed_missions a) (execution_log a).

Definition set_goals (gs : list RescueGoal) (a : RescueAgent) : RescueAgent :=
  mkAgent (agent_id a) (current_state a) gs (active_goal a) (state_history a)
          (completed_missions a) (execution_log a).

Definition set_active_goal (g : option RescueGoal) (a : RescueAgent)
  : RescueAgent :=
  mkAgent (agent_id a) (current_state a) (goals a) g (state_history a)
          (completed_missions a) (execution_log a).

Definition set_state_history (h : list HistoryEntry) (a : RescueAgent)
  : RescueAgent :=
  mkAgent (agent_id a) (current_state a) (goals a) (active_goal a) h
          (completed_missions a) (execution_log a).

Definition set_completed_missions (n : nat) (a : RescueAgent) : RescueAgent :=
  mkAgent (agent_id a) (current_state a) (goals a) (active_goal a)
          (state_history a) n (execution_log a).

Definition set_execution_log (l : list string) (a : RescueAgent)
  : RescueAgent :=
  mkAgent (agent_id a) (current_state a) (goals a) (active_goal a)
          (state_history a) (completed_missions a) l.

(** ** The world an agent method runs in

    [self] is the agent object; [now] gives the [%H:%M:%S] rendering of the
    n-th reading of the wall clock and [ticks] counts the readings taken so
    far; [stdout] collects what [print] wrote. *)
Record World : Type := mkWorld {
  self : RescueAgent;
  now : nat -> string;
  ticks : nat;
  stdout : list string
}.

Inductive Result (A : Type) : Type :=
| Ok (a : A)
| Raise (exn : string).

Arguments Ok {A} a.
Arguments Raise {A} exn.

(** State and exceptions: a raised exception keeps the mutations made
    before it, as in Python. *)
Definition M (A : Type) : Type := World -> Result A * World.

Definition ret {A : Type} (a : A) : M A := fun w => (Ok a, w).

Definition bind {A B : Type} (m : M A) (f : A -> M B) : M B :=
  fun w =>
    match m w with
    | (Ok a, w') => f a w'
    | (Raise e, w') => (Raise e, w')
    end.

Declare Scope monad_scope.
Delimit Scope monad_scope with monad.
Notation "x <- m ;; k" := (bind m (fun x => k))
  (at level 61, m at next level, right associativity) : monad_scope.
Notation "m ;; k" := (bind m (fun _ => k))
  (at level 61, right associativity) : monad_scope.
Open Scope monad_scope.

Definition raise {A : Type} (exn : string) : M A := fun w => (Raise exn, w).

Definition get_self : M RescueAgent := fun w => (Ok (self w), w).

Definition modify_self (f : RescueAgent -> RescueAgent) : M unit :=
  fun w => (Ok tt, mkWorld (f (self w)) (now w) (ticks w) (stdout w)).

(** [datetime.now().strftime("%H:%M:%S")] *)
Definition strftime_now : M string :=
  fun w => (Ok (now w (ticks w)),
            mkWorld (self w) (now w) (S (ticks w)) (stdout w)).

Definition print (line : string) : M unit :=
  fun w => (Ok tt, mkWorld (self w) (now w) (ticks w) (stdout w ++ [line])).

(** [for x in xs: body(x)] *)
Fixpoint for_each {A : Type} (xs : list A) (body : A -> M unit) : M unit :=
  match xs with
  | [] => ret tt
  | x :: xs' => body x ;; for_each xs' body
  end.

(** The final world and the outcome of running a method. *)
Definition exec {A : Type} (m : M A) (w : World) : World := snd (m w).
Definition outcome {A : Type} (m : M A) (w : World) : Result A := fst (m w).

(** ** Stable sort by descending priority

    [list.sort(key=..., reverse=True)] is stable also when reversed: the
    goals come out by decreasing key, equal keys in their original order.
    That result is unique, so any stable sort computes it; insertion from
    the right is the one used here. *)
Fixpoint insert_desc {A : Type} (key : A -> Z) (x : A) (l : list A) : list A :=
  match l with
  | [] => [x]
  | y :: l' =>
      if (key y <=? key x)%Z then x :: y :: l'
      else y :: insert_desc key x l'
  end.

Fixpoint sort_desc {A : Type} (key : A -> Z) (l : list A) : list A :=
  match l with
  | [] => []
  | x :: l' => insert_desc key x (sort_desc key l')
  end.

(** ** RescueAgent *)

(** [RescueAgent(agent_id)], built in a world with the given clock. *)
Definition RescueAgent_init (id : string) (clock : nat -> string) : World :=
  mkWorld
    (mkAgent id STATE_IDLE [] None
             [(STATE_IDLE, clock 0, "Agent initialized")] 0 [])
    clock 1 [].

(** [RescueGoal(goal_type, priority, target_zone, disaster_event)] *)
Definition RescueGoal_init (gt : string) (p : Z) (tz : string)
  (ev : DisasterEvent) : M RescueGoal :=
  created <- strftime_now ;;
  ret (mkGoal gt p tz ev "PENDING" created).

Definition log (message : string) : M unit :=
  timestamp <- strftime_now ;;
  a <- get_self ;;
  let entry := "[" ++ timestamp ++ "] [" ++ agent_id a ++ "] ["
               ++ current_state a ++ "] " ++ message in
  modify_self (fun a => set_execution_log (execution_log a ++ [entry]) a) ;;
  print entry.

Definition transition_to (new_state reason : string) : M bool :=
  a <- get_self ;;
  if negb (str_in new_state (allowed_targets (current_state a))) then
    log ("INVALID TRANSITION: " ++ current_state a ++ " -> " ++ new_state) ;;
    ret false
  else
    let old_state := current_state a in
    modify_self (set_current_state new_state) ;;
    timestamp <- strftime_now ;;
    modify_self (fun a =>
      set_state_history (state_history a ++ [(new_state, timestamp, reason)]) a) ;;
    log ("Transition: " ++ old_state ++ " -> " ++ new_state ++ " | " ++ reason) ;;
    ret true.

Definition goal_map : list (DisasterType.t * string) :=
  [ (DisasterType.FLOOD, "EVACUATE_AND_RESCUE");
    (DisasterType.EARTHQUAKE, "SEARCH_AND_RESCUE");
    (DisasterType.FIRE, "FIRE_SUPPRESSION_AND_RESCUE");
    (DisasterType.LANDSLIDE, "DEBRIS_CLEARANCE_AND_RESCUE") ].

Definition _determine_goal (d : DisasterType.t) : string :=
  dict_get DisasterType.eqb goal_map d "GENERAL_RESCUE".

Definition receive_alert (event : option DisasterEvent) : M unit :=
  match event with
  | None => ret tt
  | Some event =>
      let severity := severity event in
      let disaster := disaster_type event in
      let zone := zone event in
      let goal_type := _determine_goal disaster in
      let priority := SeverityLevel.value severity in
      goal <- RescueGoal_init goal_type priority zone event ;;
      modify_self (fun a => set_goals (goals a ++ [goal]) a) ;;
      log ("New goal created: " ++ goal_type ++ " in " ++ zone
           ++ " (Severity: " ++ SeverityLevel.name severity ++ ")") ;;
      a <- get_self ;;
      if String.eqb (current_state a) STATE_IDLE then
        transition_to STATE_ALERT
          ("Disaster alert: " ++ DisasterType.value disaster ++ " in " ++ zone) ;;
        ret tt
      else ret tt
  end.

(** [self.goals.pop(0)]: raises [IndexError] on an empty list. *)
Definition goals_pop0 : M RescueGoal :=
  a <- get_self ;;
  match goals a with
  | [] => raise "IndexError: pop from empty list"
  | g :: rest => modify_self (set_goals rest) ;; ret g
  end.

Definition assess_situation : M unit :=
  a <- get_self ;;
  match goals a with
  | [] => transition_to STATE_IDLE "No pending goals" ;; ret tt
  | _ :: _ =>
      modify_self (fun a => set_goals (sort_desc priority (goals a)) a) ;;
      top <- goals_pop0 ;;
      modify_self (set_active_goal (Some top)) ;;
      modify_self (set_active_goal (Some (set_status "ACTIVE" top))) ;;
      let g := set_status "ACTIVE" top in
      let event := disaster_event g in
      log ("Assessing: " ++ goal_type g ++ " | "
           ++ "Zone: " ++ zone event ++ " (" ++ zone_name event ++ ") | "
           ++ "Severity: " ++ SeverityLevel.name (severity event) ++ " | "
           ++ "Temp: " ++ temperature event ++ "C | Water: "
           ++ water_level event ++ "m | Seismic: " ++ seismic event) ;;
      transition_to STATE_ASSESSING ("Assessing " ++ goal_type g) ;;
      ret tt
  end.

Definition base_actions : list (DisasterType.t * list string) :=
  [ (DisasterType.FLOOD,
      [ "Deploying water rescue boats";
        "Activating flood barriers";
        "Evacuating residents to higher ground" ]);
    (DisasterType.EARTHQUAKE,
      [ "Deploying seismic rescue units";
        "Scanning collapsed structures";
        "Setting up triage stations" ]);
    (DisasterType.FIRE,
      [ "Dispatching fire suppression units";
        "Establishing firebreaks";
        "Evacuating affected buildings" ]);
    (DisasterType.LANDSLIDE,
      [ "Deploying heavy debris removal equipment";
        "Scanning for buried survivors";
        "Securing unstable terrain" ]) ].

(** [base_actions] is rebuilt on every call, so the appends below never
    reach a list shared between calls. *)
Definition _get_response_actions (disaster : DisasterType.t)
  (severity : SeverityLevel.t) : list string :=
  let actions :=
    dict_get DisasterType.eqb base_actions disaster
             ["Initiating general rescue protocol"] in
  let actions :=
    if (SeverityLevel.value SeverityLevel.HIGH <=? SeverityLevel.value severity)%Z
    then ((actions ++ ["Requesting additional backup units"])
            ++ ["Alerting medical emergency teams"])%list
    else actions in
  let actions :=
    if SeverityLevel.eqb severity SeverityLevel.CRITICAL
    then (actions ++ ["Declaring zone-wide emergency evacuation"])%list
    else actions in
  actions.

(** The pacing [time.sleep] calls have no effect on the agent and are left
    out. *)
Definition execute_response : M unit :=
  a <- get_self ;;
  match active_goal a with
  | None => ret tt
  | Some g =>
      transition_to STATE_RESPONDING ("Executing " ++ goal_type g) ;;
      let event := disaster_event g in
      let disaster := disaster_type event in
      let severity := severity event in
      let actions := _get_response_actions disaster severity in
      for_each actions (fun action => log ("  ACTION: " ++ action))
  end.

Definition complete_mission : M unit :=
  a <- get_self ;;
  match active_goal a with
  | Some g =>
      modify_self (set_active_goal (Some (set_status "COMPLETED" g))) ;;
      modify_self (fun a => set_completed_missions (completed_missions a + 1) a) ;;
      log ("Mission completed: " ++ goal_type g ++ " in " ++ target_zone g) ;;
      transition_to STATE_COMPLETING "Mission wrap-up" ;;
      modify_self (set_active_goal None) ;;
      transition_to STATE_IDLE "Ready for next assignment" ;;
      ret tt
  | None => ret tt
  end.

Definition run_fsm_cycle : M unit :=
  a <- get_self ;;
  if String.eqb (current_state a) STATE_IDLE then ret tt
  else if String.eqb (current_state a) STATE_ALERT then assess_situation
  else if String.eqb (current_state a) STATE_ASSESSING then execute_response
  else if String.eqb (current_state a) STATE_RESPONDING then complete_mission
  else ret tt.

(** * Drivers and operation sequences *)

(** [while rescue.current_state != STATE_IDLE: rescue.run_fsm_cycle()],
    with [fuel] bounding the number of iterations; [None] is fuel
    exhausted. *)
Fixpoint run_until_idle (fuel : nat) (w : World)
  : option (Result unit * World) :=
  if String.eqb (current_state (self w)) STATE_IDLE then Some (Ok tt, w)
  else
    match fuel with
    | O => None
    | S fuel' =>
        match run_fsm_cycle w with
        | (Ok _, w') => run_until_idle fuel' w'
        | (Raise e, w') => Some (Raise e, w')
        end
    end.

(** The loop of [run_simulation] over the events the sensor scans found:
    deliver the event, then step the machine until it is Idle again. *)
Fixpoint run_simulation (fuel : nat) (events : list (option DisasterEvent))
  (w : World) : option (Result unit * World) :=
  match events with
  | [] => Some (Ok tt, w)
  | event :: events' =>
      match receive_alert event w with
      | (Raise e, w') => Some (Raise e, w')
      | (Ok _, w1) =>
          match run_until_idle fuel w1 with
          | None => None
          | Some (Raise e, w') => Some (Raise e, w')
          | Some (Ok _, w2) => run_simulation fuel events' w2
          end
      end
  end.

(** The operations a caller can invoke on the agent. *)
Inductive Op : Set :=
| OpReceiveAlert (event : option DisasterEvent)
| OpAssess
| OpExecuteResponse
| OpCompleteMission
| OpRunFsmCycle.

Definition run_op (o : Op) : M unit :=
  match o with
  | OpReceiveAlert event => receive_alert event
  | OpAssess => assess_situation
  | OpExecuteResponse => execute_response
  | OpCompleteMission => complete_mission
  | OpRunFsmCycle => run_fsm_cycle
  end.

Definition run_ops (ops : list Op) (w : World) : World :=
  fold_left (fun w o => exec (run_op o) w) ops w.

(** [n] successive calls of [run_fsm_cycle]. *)
Definition cycles (n : nat) (w : World) : World :=
  run_ops (repeat OpRunFsmCycle n) w.

(** * Worlds produced by the steps of the methods

    Each method is a fixed succession of field updates, log lines and
    transitions; the worlds below are what these steps leave behind, and the
    run equations proved further down relate the methods to them. *)


(** The world after [log(message)]. *)
Definition log_world (message : string) (w : World) : World :=
  let entry := "[" ++ now w (ticks w) ++ "] [" ++ agent_id (self w) ++ "] ["
               ++ current_state (self w) ++ "] " ++ message in
  mkWorld (set_execution_log (execution_log (self w) ++ [entry]) (self w))
          (now w) (S (ticks w)) (stdout w ++ [entry]).

(** The world after logging the messages one by one. *)
Definition log_all (messages : list string) (w : World) : World :=
  fold_left (fun w m => log_world m w) messages w.

(** The world after an accepted [transition_to]. *)
Definition commit_world (new_state reason : string) (w : World) : World :=
  log_world ("Transition: " ++ current_state (self w) ++ " -> " ++ new_state
             ++ " | " ++ reason)
    (mkWorld
       (set_state_history
          (state_history (self w) ++ [(new_state, now w (ticks w), reason)])
          (set_current_state new_state (self w)))
       (now w) (S (ticks w)) (stdout w)).

(** The world after a rejected [transition_to]. *)
Definition reject_world (new_state : string) (w : World) : World :=
  log_world ("INVALID TRANSITION: " ++ current_state (self w) ++ " -> "
             ++ new_state) w.

(** The goal [receive_alert] builds for an event. *)
Definition new_goal (event : DisasterEvent) (created : string) : RescueGoal :=
  mkGoal (_determine_goal (disaster_type event))
         (SeverityLevel.value (severity event)) (zone event) event
         "PENDING" created.

Definition alert_reason (event : DisasterEvent) : string :=
  "Disaster alert: " ++ DisasterType.value (disaster_type event) ++ " in "
  ++ zone event.

(** The world after [receive_alert] has queued the goal and logged it,
    before it looks at the current state. *)
Definition enqueue_world (event : DisasterEvent) (w : World) : World :=
  log_world
    ("New goal created: " ++ _determine_goal (disaster_type event) ++ " in "
     ++ zone event ++ " (Severity: " ++ SeverityLevel.name (severity event)
     ++ ")")
    (mkWorld
       (set_goals (goals (self w) ++ [new_goal event (now w (ticks w))])
                  (self w))
       (now w) (S (ticks w)) (stdout w)).

Definition assess_message (g : RescueGoal) : string :=
  let event := disaster_event g in
  "Assessing: " ++ goal_type g ++ " | "
  ++ "Zone: " ++ zone event ++ " (" ++ zone_name event ++ ") | "
  ++ "Severity: " ++ SeverityLevel.name (severity event) ++ " | "
  ++ "Temp: " ++ temperature event ++ "C | Water: "
  ++ water_level event ++ "m | Seismic: " ++ seismic event.

(** The world after [assess_situation] has popped [top] off the sorted
    queue, activated it and logged the assessment, before the transition. *)
Definition select_world (top : RescueGoal) (rest : list RescueGoal)
  (w : World) : World :=
  log_world (assess_message (set_status "ACTIVE" top))
    (mkWorld
       (set_active_goal (Some (set_status "ACTIVE" top))
                        (set_goals rest (self w)))
       (now w) (ticks w) (stdout w)).

(** The messages [execute_response] logs for the actions of a goal. *)
Definition action_lines (g : RescueGoal) : list string :=
  map (fun action => "  ACTION: " ++ action)
      (_get_response_actions (disaster_type (disaster_event g))
                             (severity (disaster_event g))).

(** The world after [complete_mission] has marked the goal completed,
    counted the mission and logged it, before the two transitions. *)
Definition finish_world (g : RescueGoal) (w : World) : World :=
  log_world
    ("Mission completed: " ++ goal_type g ++ " in " ++ target_zone g)
    (mkWorld
       (set_completed_missions (completed_missions (self w) + 1)
          (set_active_goal (Some (set_status "COMPLETED" g)) (self w)))
       (now w) (ticks w) (stdout w)).

(** [self.active_goal = None] *)
Definition release_world (w : World) : World :=
  mkWorld (set_active_goal None (self w)) (now w) (ticks w) (stdout w).

(** * Properties of queues, histories and reachable worlds *)

(** Sorted by non-increasing key. *)
Definition desc_sorted {A : Type} (key : A -> Z) (l : list A) : Prop :=
  StronglySorted (fun x y => (key y <= key x)%Z) l.



(** An edge of the static transition table. *)
Definition edge (s t : string) : Prop := In t (allowed_targets s).

(** Every two consecutive entries of a history are an edge of the table. *)
Definition chain_valid (h : list HistoryEntry) : Prop :=
  forall l1 e1 e2 l2,
    h = (l1 ++ e1 :: e2 :: l2)%list -> edge (entry_state e1) (entry_state e2).

(** The history ends with an entry for the given state. *)
Definition ends_in (h : list HistoryEntry) (s : string) : Prop :=
  exists l e, h = (l ++ [e])%list /\ entry_state e = s.

(** A well-formed history: a path of the table ending at the current
    state. *)
Definition history_ok (w : World) : Prop :=
  chain_valid (state_history (self w)) /\
  ends_in (state_history (self w)) (current_state (self w)).

(** [w'] has the history of [w] with entries appended, and a well-formed
    history if [w] had one. *)
Definition evolves (w w' : World) : Prop :=
  (exists suffix,
     state_history (self w') = (state_history (self w) ++ suffix)%list) /\
  (history_ok w -> history_ok w').

(** The states a caller can observe, and the presence of an active goal
    where the dispatcher relies on it. *)
Definition dispatch_ok (w : World) : Prop :=
  (current_state (self w) = STATE_IDLE \/
   current_state (self w) = STATE_ALERT \/
   current_state (self w) = STATE_ASSESSING \/
   current_state (self w) = STATE_RESPONDING) /\
  (current_state (self w) = STATE_ASSESSING \/
   current_state (self w) = STATE_RESPONDING ->
   active_goal (self w) <> None).

(** * Sample agents and events *)

Definition sample_clock : nat -> string := fun _ => "12:00:00".

Definition sample_event (z : string) (d : DisasterType.t)
  (s : SeverityLevel.t) : DisasterEvent :=
  mkEvent z "Residential District" d s "12:00:00" "25.0" "1.0" "0.1".

Definition fire_alert : DisasterEvent :=
  sample_event "Zone-B" DisasterType.FIRE SeverityLevel.CRITICAL.

(** Four alerts of priorities 2, 4, 4, 1 for the zones A, B, C, D. *)
Definition four_alerts : list DisasterEvent :=
  [ sample_event "Zone-A" DisasterType.FLOOD SeverityLevel.MODERATE;
    sample_event "Zone-B" DisasterType.FIRE SeverityLevel.CRITICAL;
    sample_event "Zone-C" DisasterType.EARTHQUAKE SeverityLevel.CRITICAL;
    sample_event "Zone-D" DisasterType.LANDSLIDE SeverityLevel.LOW ].

(** Deliver the events one after the other. *)
Definition receive_all (events : list DisasterEvent) (w : World) : World :=
  fold_left (fun w e => exec (receive_alert (Some e)) w) events w.

(** The zone and priority of the active goal, if any. *)
Definition active_target (w : World) : option (string * Z) :=
  option_map (fun g => (target_zone g, priority g)) (active_goal (self w)).

(** A fresh agent, and the same agent after one alert, after the
    assessment of that alert, and after the response to it has started. *)
Definition fresh_agent : World :=
  RescueAgent_init "RescueAgent-01" sample_clock.

Definition alerted_agent : World :=
  exec (receive_alert (Some fire_alert)) fresh_agent.

Definition assessing_agent : World := exec assess_situation alerted_agent.

Definition responding_agent : World := exec execute_response assessing_agent.

(** * Further predicates on worlds and operation sequences *)

(** [w'] has the log of [w] with lines appended, and the same lines were
    printed. *)
Definition mirrored (w w' : World) : Prop :=
  exists lines,
    execution_log (self w') = (execution_log (self w) ++ lines)%list /\
    stdout w' = (stdout w ++ lines)%list.

(** The operations the simulation driver performs: delivering a scan result
    and stepping the dispatcher. *)
Definition driver_op (o : Op) : bool :=
  match o with
  | OpReceiveAlert _ | OpRunFsmCycle => true
  | _ => false
  end.

(** The number of events among scan results. *)
Definition detected (events : list (option DisasterEvent)) : nat :=
  length (filter (fun e => match e with Some _ => true | None => false end)
                 events).

(** The scan results delivered by a sequence of operations. *)
Definition delivered (ops : list Op) : list (option DisasterEvent) :=
  flat_map (fun o => match o with OpReceiveAlert e => [e] | _ => [] end) ops.

(** 1 when a goal is active, 0 otherwise. *)
Definition active_count (w : World) : nat :=
  match active_goal (self w) with Some _ => 1 | None => 0 end.

(** A goal carries the kind, priority and zone of its event. *)
Definition goal_of_event (g : RescueGoal) : Prop :=
  goal_type g = _determine_goal (disaster_type (disaster_event g)) /\
  priority g = SeverityLevel.value (severity (disaster_event g)) /\
  target_zone g = zone (disaster_event g).

(** Queued goals are pending, the active goal is active, and all of them
    agree with their events. *)
Definition goals_ok (w : World) : Prop :=
  Forall (fun g => status g = "PENDING" /\ goal_of_event g)
         (goals (self w)) /\
  (forall g, active_goal (self w) = Some g ->
             status g = "ACTIVE" /\ goal_of_event g).

(** What the driver keeps true between its calls. *)
Definition driver_ok (w : World) : Prop :=
  (current_state (self w) = STATE_IDLE /\ active_goal (self w) = None) \/
  (current_state (self w) = STATE_ALERT /\ active_goal (self w) = None /\
   goals (self w) <> []) \/
  (current_state (self w) = STATE_ASSESSING /\ active_goal (self w) <> None) \/
  (current_state (self w) = STATE_RESPONDING /\ active_goal (self w) <> None).

(** The five states of the table. *)
Definition STATES : list string :=
  [STATE_IDLE; STATE_ALERT; STATE_ASSESSING; STATE_RESPONDING;
   STATE_COMPLETING].

(** * The environment, the sensor and the simulation loop *)

From Stdlib Require QArith DecimalString.

(** A Python float is a binary fraction.  The only operation made on floats
    here is a comparison, which is exact on the rationals they denote, so a
    float is carried as that rational. *)
Definition float : Set := QArith_base.Q.

Definition float_lt (x y : float) : bool := negb (QArith_base.Qle_bool y x).

(** The doubles that the literals [0.3], [0.25], [0.35], [0.4] and [0.2]
    denote. *)
Definition double_0_3 : float :=
  QArith_base.Qmake 5404319552844595 18014398509481984.
Definition double_0_25 : float := QArith_base.Qmake 1 4.
Definition double_0_35 : float :=
  QArith_base.Qmake 3152519739159347 9007199254740992.
Definition double_0_4 : float :=
  QArith_base.Qmake 3602879701896397 9007199254740992.
Definition double_0_2 : float :=
  QArith_base.Qmake 3602879701896397 18014398509481984.

(** [d[k]] on a dict: [None] stands for [KeyError]. *)
Fixpoint dict_lookup {K V : Type} (keq : K -> K -> bool)
  (d : list (K * V)) (k : K) : option V :=
  match d with
  | [] => None
  | (k', v) :: d' => if keq k' k then Some v else dict_lookup keq d' k
  end.

(** [d[k] = v] on a dict: an existing key keeps its place, a new one goes
    last. *)
Fixpoint dict_set {K V : Type} (keq : K -> K -> bool)
  (d : list (K * V)) (k : K) (v : V) : list (K * V) :=
  match d with
  | [] => [(k, v)]
  | (k', v') :: d' =>
      if keq k' k then (k', v) :: d' else (k', v') :: dict_set keq d' k v
  end.

(** [random.choice(seq)], given what the generator draws: the draw is
    reduced below the length of the sequence; [None] stands for the
    [IndexError] raised on an empty sequence. *)
Definition choice {A : Type} (seq : list A) (draw : nat) : option A :=
  match seq with
  | [] => None
  | _ :: _ => nth_error seq (draw mod length seq)
  end.

(** What the generator yields during one call of [generate_event]: the
    draws behind the three [random.choice] calls, the value of
    [random.random()], and the three readings as drawn by [random.uniform]
    and rounded, in the rendering the event record carries.  A call that
    returns nothing uses the first two only. *)
Record Draws : Set := mkDraws {
  zone_draw : nat;
  risk_roll : float;
  disaster_draw : nat;
  severity_draw : nat;
  temperature_reading : string;
  water_level_reading : string;
  seismic_reading : string
}.

(** An entry of [self.zones]. *)
Record ZoneInfo : Set := mkZone {
  name : string;
  base_risk : float
}.

Record DisasterEnvironment : Set := mkEnvironment {
  zones : list (string * ZoneInfo);
  active_disasters : list (string * DisasterEvent)
}.

(** [DisasterEnvironment()] *)
Definition DisasterEnvironment_init : DisasterEnvironment :=
  mkEnvironment
    [ ("Zone-A", mkZone "Residential District" double_0_3);
      ("Zone-B", mkZone "Commercial Hub" double_0_25);
      ("Zone-C", mkZone "Industrial Area" double_0_35);
      ("Zone-D", mkZone "Coastal Region" double_0_4);
      ("Zone-E", mkZone "Highland Sector" double_0_2) ]
    [].

Definition DISASTER_CHOICES : list DisasterType.t :=
  [DisasterType.FLOOD; DisasterType.EARTHQUAKE; DisasterType.FIRE;
   DisasterType.LANDSLIDE].

Definition SEVERITY_CHOICES : list SeverityLevel.t :=
  [SeverityLevel.LOW; SeverityLevel.MODERATE; SeverityLevel.HIGH;
   SeverityLevel.CRITICAL].

(** [DisasterEnvironment.generate_event], in the world whose clock it
    reads. *)
Definition generate_event (d : Draws) (env : DisasterEnvironment) (w : World)
  : Result (option DisasterEvent) * DisasterEnvironment * World :=
  match choice (map fst (zones env)) (zone_draw d) with
  | None => (Raise "IndexError: Cannot choose from an empty sequence", env, w)
  | Some zone_id =>
      match dict_lookup String.eqb (zones env) zone_id with
      | None => (Raise "KeyError", env, w)
      | Some zone =>
          if float_lt (risk_roll d) (base_risk zone) then
            match choice DISASTER_CHOICES (disaster_draw d),
                  choice SEVERITY_CHOICES (severity_draw d) with
            | Some disaster, Some severity =>
                let event :=
                  mkEvent zone_id (name zone) disaster severity
                          (now w (ticks w))
                          (temperature_reading d) (water_level_reading d)
                          (seismic_reading d) in
                (Ok (Some event),
                 mkEnvironment
                   (zones env)
                   (dict_set String.eqb (active_disasters env) zone_id event),
                 exec strftime_now w)
            | _, _ =>
                (Raise "IndexError: Cannot choose from an empty sequence",
                 env, w)
            end
          else (Ok None, env, w)
      end
  end.

Record SensorAgent : Set := mkSensor {
  environment : DisasterEnvironment;
  scan_count : nat
}.

(** [SensorAgent(environment)] *)
Definition SensorAgent_init (env : DisasterEnvironment) : SensorAgent :=
  mkSensor env 0.

(** [str(n)] for a natural number. *)
Definition str_of_nat (n : nat) : string :=
  DecimalString.NilZero.string_of_uint (Nat.to_uint n).

Definition newline : string := String (ascii_of_nat 10) EmptyString.

(** The line [scan] prints for what it found. *)
Definition scan_line (count : nat) (event : option DisasterEvent) : string :=
  match event with
  | Some event =>
      newline ++ "[SENSOR] Scan #" ++ str_of_nat count
      ++ " | DISASTER DETECTED: "
      ++ DisasterType.value (disaster_type event) ++ " in " ++ zone event
      ++ " (" ++ zone_name event ++ ") | Severity: "
      ++ SeverityLevel.name (severity event)
  | None =>
      newline ++ "[SENSOR] Scan #" ++ str_of_nat count
      ++ " | No disaster detected"
  end.

(** [SensorAgent.scan]: the count is incremented before the environment is
    asked, so it stays incremented if that raises. *)
Definition scan (d : Draws) (sensor : SensorAgent) (w : World)
  : Result (option DisasterEvent) * SensorAgent * World :=
  let count := scan_count sensor + 1 in
  match generate_event d (environment sensor) w with
  | (Raise e, env', w') => (Raise e, mkSensor env' count, w')
  | (Ok event, env', w') =>
      (Ok event, mkSensor env' count, exec (print (scan_line count event)) w')
  end.

(** [s * n] on a string. *)
Fixpoint str_mul (s : string) (n : nat) : string :=
  match n with
  | O => ""
  | S n' => s ++ str_mul s n'
  end.

(** The three lines printed at the head of a cycle. *)
Definition cycle_banner (cycle num_cycles : nat) : list string :=
  [ newline ++ str_mul "─" 60;
    "  SIMULATION CYCLE " ++ str_of_nat cycle ++ "/" ++ str_of_nat num_cycles;
    str_mul "─" 60 ].

(** The body of the [for cycle in range(1, num_cycles + 1)] loop of
    [run_simulation], over the cycle numbers still to run: banner, scan,
    alert delivery, then stepping until Idle within [fuel] steps.  [draws]
    gives what the generator yields during the scan of each cycle. *)
Fixpoint simulation_cycles (fuel : nat) (draws : nat -> Draws)
  (num_cycles : nat) (cycles_left : list nat) (sensor : SensorAgent)
  (w : World) : option (Result unit * SensorAgent * World) :=
  match cycles_left with
  | [] => Some (Ok tt, sensor, w)
  | cycle :: cycles_left' =>
      let w := exec (for_each (cycle_banner cycle num_cycles) print) w in
      match scan (draws cycle) sensor w with
      | (Raise e, sensor', w') => Some (Raise e, sensor', w')
      | (Ok event, sensor', w1) =>
          match receive_alert event w1 with
          | (Raise e, w') => Some (Raise e, sensor', w')
          | (Ok _, w2) =>
              match run_until_idle fuel w2 with
              | None => None
              | Some (Raise e, w') => Some (Raise e, sensor', w')
              | Some (Ok _, w3) =>
                  simulation_cycles fuel draws num_cycles cycles_left'
                                    sensor' w3
              end
          end
      end
  end.

(** The whole loop, from cycle 1 to [num_cycles]. *)
Definition simulation_loop (fuel : nat) (draws : nat -> Draws)
  (num_cycles : nat) (sensor : SensorAgent) (w : World)
  : option (Result unit * SensorAgent * World) :=
  simulation_cycles fuel draws num_cycles (seq 1 num_cycles) sensor w.

(** Whether the roll of the draws falls below the base risk of the zone
    they pick. *)
Definition risk_hit (env : DisasterEnvironment) (d : Draws) : bool :=
  match choice (map fst (zones env)) (zone_draw d) with
  | Some zone_id =>
      match dict_lookup String.eqb (zones env) zone_id with
      | Some zone => float_lt (risk_roll d) (base_risk zone)
      | None => false
      end
  | None => false
  end.

(** The identifiers of the five zones. *)
Definition ZONE_IDS : list string :=
  ["Zone-A"; "Zone-B"; "Zone-C"; "Zone-D"; "Zone-E"].

(** Sample draws: Zone-D, a roll of 1/4, a Fire of High severity. *)
Definition sample_draws : Draws :=
  mkDraws 3 (QArith_base.Qmake 1 4) 2 2 "41.5" "1.2" "0.3".

(** Sample draws whose roll of 1/2 is above every base risk. *)
Definition quiet_draws : Draws :=
  mkDraws 3 (QArith_base.Qmake 1 2) 2 2 "41.5" "1.2" "0.3".

(** Successive calls of [generate_event], one per element of [ds]; the
    results are dropped. *)
Definition generate_all (ds : list Draws) (env : DisasterEnvironment)
  (w : World) : DisasterEnvironment * World :=
  fold_left (fun ew d => let '(_, env', w') := generate_event d (fst ew) (snd ew)
                         in (env', w'))
            ds (env, w).

(** The registry of active disasters holds at most one event per zone, under
    the identifier of the zone the event is for. *)
Definition registry_ok (env : DisasterEnvironment) : Prop :=
  zones env = zones DisasterEnvironment_init /\
  NoDup (map fst (active_disasters env)) /\
  incl (map fst (active_disasters env)) ZONE_IDS /\
  Forall (fun kv => zone (snd kv) = fst kv) (active_disasters env).

(** * Symbolic execution of the primitives *)

Lemma log_eq (message : string) (w : World) :
  log message w = (Ok tt, log_world message w).
Proof. reflexivity. Qed.

Lemma transition_to_eq (new_state reason : string) (w : World) :
  transition_to new_state reason w =
  if str_in new_state (allowed_targets (current_state (self w)))
  then (Ok true, commit_world new_state reason w)
  else (Ok false, reject_world new_state w).
Proof.
  unfold transition_to, bind, get_self.
  destruct (str_in new_state (allowed_targets (current_state (self w))));
    reflexivity.
Qed.

(** * Theory of the stable descending sort *)

Section SortDesc.

Context {A : Type} (key : A -> Z).

Lemma insert_desc_perm (x : A) (l : list A) :
  Permutation (x :: l) (insert_desc key x l).
Proof.
  induction l as [|y l IH]; cbn; [reflexivity|].
  destruct (key y <=? key x)%Z; [reflexivity|].
  rewrite perm_swap. now constructor.
Qed.

Lemma sort_desc_perm (l : list A) : Permutation l (sort_desc key l).
Proof.
  induction l as [|x l IH]; cbn; [constructor|].
  rewrite <- insert_desc_perm. now constructor.
Qed.

Lemma insert_desc_sorted (x : A) (l : list A) :
  desc_sorted key l -> desc_sorted key (insert_desc key x l).
Proof.
  unfold desc_sorted. induction 1 as [|y l Hl IH Hy]; cbn.
  - repeat constructor.
  - destruct (Z.leb_spec (key y) (key x)) as [Hle|Hlt].
    + constructor; [now constructor|].
      constructor; [exact Hle|].
      eapply Forall_impl; [|exact Hy]. cbn; intros; lia.
    + constructor; [exact IH|].
      eapply Permutation_Forall; [apply insert_desc_perm|].
      constructor; [lia | exact Hy].
Qed.

Lemma sort_desc_sorted (l : list A) : desc_sorted key (sort_desc key l).
Proof.
  induction l as [|x l IH]; cbn; [constructor|].
  now apply insert_desc_sorted.
Qed.

(** Stability: the goals of any one key keep their relative order. *)
Lemma insert_desc_stable (p : Z) (x : A) (l : list A) :
  filter (fun y => (key y =? p)%Z) (insert_desc key x l) =
  filter (fun y => (key y =? p)%Z) (x :: l).
Proof.
  induction l as [|y l IH]; [reflexivity|].
  cbn [insert_desc].
  destruct (Z.leb_spec (key y) (key x)) as [Hle|Hlt]; [reflexivity|].
  cbn [filter] in *. rewrite IH.
  destruct (Z.eqb_spec (key x) p), (Z.eqb_spec (key y) p);
    try reflexivity; lia.
Qed.

Lemma sort_desc_stable (p : Z) (l : list A) :
  filter (fun y => (key y =? p)%Z) (sort_desc key l) =
  filter (fun y => (key y =? p)%Z) l.
Proof.
  induction l as [|x l IH]; [reflexivity|].
  cbn [sort_desc]. rewrite insert_desc_stable. cbn [filter].
  now rewrite IH.
Qed.

Lemma sort_desc_nil_inv (l : list A) : sort_desc key l = [] -> l = [].
Proof.
  intros H. apply Permutation_nil. rewrite <- H. symmetry.
  apply sort_desc_perm.
Qed.

(** The head of the sorted list is the earliest element of greatest key,
    and the tail is the sort of what is left. *)
Lemma sort_desc_head (l : list A) (g : A) (rest : list A) :
  sort_desc key l = g :: rest ->
  exists l1 l2,
    l = (l1 ++ g :: l2)%list /\
    Forall (fun x => (key x < key g)%Z) l1 /\
    Forall (fun x => (key x <= key g)%Z) l2 /\
    rest = sort_desc key (l1 ++ l2).
Proof.
  revert g rest. induction l as [|x l IH]; intros g rest H; [discriminate|].
  cbn [sort_desc] in H.
  destruct (sort_desc key l) as [|g' rest'] eqn:E.
  - apply sort_desc_nil_inv in E. subst l. cbn in H. injection H as <- <-.
    exists [], []. repeat split; constructor.
  - cbn [insert_desc] in H.
    destruct (Z.leb_spec (key g') (key x)) as [Hle|Hlt].
    + injection H as <- <-. exists [], l. cbn [app].
      repeat split; [constructor| |now rewrite E].
      pose proof (sort_desc_sorted l) as Hs. rewrite E in Hs.
      apply StronglySorted_inv in Hs. destruct Hs as [_ Hs].
      eapply Permutation_Forall; [symmetry; apply sort_desc_perm|].
      rewrite E. constructor; [exact Hle|].
      eapply Forall_impl; [|exact Hs]. cbn; intros; lia.
    + injection H as <- <-.
      destruct (IH g' rest' eq_refl) as (l1 & l2 & -> & H1 & H2 & ->).
      exists (x :: l1), l2. repeat split; auto.
Qed.

End SortDesc.

Ltac mrun :=
  cbv beta iota zeta
      delta [bind ret raise get_self modify_self strftime_now
             RescueGoal_init goals_pop0];
  cbn [self now ticks stdout agent_id current_state goals active_goal
       state_history completed_missions execution_log
       set_current_state set_goals set_active_goal set_state_history
       set_completed_missions set_execution_log].

Lemma str_in_In (x : string) (l : list string) :
  str_in x l = true <-> In x l.
Proof.
  unfold str_in. rewrite existsb_exists. split.
  - intros (y & Hy & E). apply String.eqb_eq in E. now subst.
  - intros H. exists x. split; [exact H | apply String.eqb_refl].
Qed.

Lemma exec_transition_to (new_state reason : string) (w : World) :
  exec (transition_to new_state reason) w =
  if str_in new_state (allowed_targets (current_state (self w)))
  then commit_world new_state reason w
  else reject_world new_state w.
Proof.
  unfold exec. rewrite transition_to_eq.
  now destruct (str_in _ _).
Qed.

Lemma transition_to_run (new_state reason : string) (w : World) :
  transition_to new_state reason w =
  (Ok (str_in new_state (allowed_targets (current_state (self w)))),
   exec (transition_to new_state reason) w).
Proof.
  rewrite exec_transition_to, transition_to_eq. now destruct (str_in _ _).
Qed.

Lemma receive_alert_none (w : World) : receive_alert None w = (Ok tt, w).
Proof. reflexivity. Qed.

Lemma receive_alert_some (event : DisasterEvent) (w : World) :
  receive_alert (Some event) w =
  (Ok tt,
   if String.eqb (current_state (self w)) STATE_IDLE
   then exec (transition_to STATE_ALERT (alert_reason event))
             (enqueue_world event w)
   else enqueue_world event w).
Proof.
  unfold receive_alert. mrun. rewrite log_eq.
  change (log_world _ _) with (enqueue_world event w).
  change (current_state (self (enqueue_world event w)))
    with (current_state (self w)).
  destruct (String.eqb (current_state (self w)) STATE_IDLE); [|reflexivity].
  fold (alert_reason event). now rewrite transition_to_run.
Qed.

Lemma assess_situation_empty (w : World) :
  goals (self w) = [] ->
  assess_situation w =
  (Ok tt, exec (transition_to STATE_IDLE "No pending goals") w).
Proof.
  intros H. unfold assess_situation. mrun. rewrite H.
  now rewrite transition_to_run.
Qed.

Lemma assess_situation_select (w : World) :
  goals (self w) <> [] ->
  exists top rest,
    sort_desc priority (goals (self w)) = top :: rest /\
    assess_situation w =
    (Ok tt,
     exec (transition_to STATE_ASSESSING
             ("Assessing " ++ goal_type (set_status "ACTIVE" top)))
          (select_world top rest w)).
Proof.
  intros H.
  destruct (sort_desc priority (goals (self w))) as [|top rest] eqn:E.
  { now apply sort_desc_nil_inv in E. }
  exists top, rest. split; [reflexivity|].
  unfold assess_situation. mrun.
  destruct (goals (self w)) as [|g0 gs] eqn:G; [contradiction|].
  rewrite ?G, E. mrun. rewrite log_eq.
  change (log_world _ _) with (select_world top rest w).
  now rewrite transition_to_run.
Qed.

Lemma for_each_log (f : string -> string) (xs : list string) (w : World) :
  for_each xs (fun x => log (f x)) w = (Ok tt, log_all (map f xs) w).
Proof.
  revert w. induction xs as [|x xs IH]; intros w; [reflexivity|].
  cbn [for_each map]. mrun. rewrite log_eq, IH. reflexivity.
Qed.

Lemma execute_response_none (w : World) :
  active_goal (self w) = None -> execute_response w = (Ok tt, w).
Proof.
  intros H. unfold execute_response. mrun. now rewrite H.
Qed.

Lemma execute_response_some (g : RescueGoal) (w : World) :
  active_goal (self w) = Some g ->
  execute_response w =
  (Ok tt,
   log_all (action_lines g)
     (exec (transition_to STATE_RESPONDING ("Executing " ++ goal_type g)) w)).
Proof.
  intros H. unfold execute_response. mrun. rewrite H.
  rewrite transition_to_run. now rewrite for_each_log.
Qed.

Lemma complete_mission_none (w : World) :
  active_goal (self w) = None -> complete_mission w = (Ok tt, w).
Proof.
  intros H. unfold complete_mission. mrun. now rewrite H.
Qed.

Lemma complete_mission_some (g : RescueGoal) (w : World) :
  active_goal (self w) = Some g ->
  complete_mission w =
  (Ok tt,
   exec (transition_to STATE_IDLE "Ready for next assignment")
     (release_world
        (exec (transition_to STATE_COMPLETING "Mission wrap-up")
              (finish_world g w)))).
Proof.
  intros H. unfold complete_mission. mrun. rewrite H. mrun.
  rewrite log_eq.
  change (log_world _ _) with (finish_world g w).
  rewrite transition_to_run.
  change (mkWorld _ _ _ _) with
    (release_world (exec (transition_to STATE_COMPLETING "Mission wrap-up")
                         (finish_world g w))).
  now rewrite transition_to_run.
Qed.

(** * What the world transformers leave alone *)

Lemma log_all_app (ms1 ms2 : list string) (w : World) :
  log_all (ms1 ++ ms2) w = log_all ms2 (log_all ms1 w).
Proof. apply fold_left_app. Qed.

Lemma log_all_frame (ms : list string) (w : World) :
  current_state (self (log_all ms w)) = current_state (self w) /\
  goals (self (log_all ms w)) = goals (self w) /\
  active_goal (self (log_all ms w)) = active_goal (self w) /\
  state_history (self (log_all ms w)) = state_history (self w) /\
  completed_missions (self (log_all ms w)) = completed_missions (self w).
Proof.
  revert w. induction ms as [|m ms IH]; intros w; [now repeat split|].
  cbn [log_all fold_left]. fold (log_all ms (log_world m w)).
  destruct (IH (log_world m w)) as (-> & -> & -> & -> & ->).
  now repeat split.
Qed.

Lemma transition_to_frame (new_state reason : string) (w : World) :
  let w' := exec (transition_to new_state reason) w in
  goals (self w') = goals (self w) /\
  active_goal (self w') = active_goal (self w) /\
  completed_missions (self w') = completed_missions (self w).
Proof.
  cbn zeta. rewrite exec_transition_to.
  now destruct (str_in _ _).
Qed.

Lemma transition_to_state (new_state reason : string) (w : World) :
  current_state (self (exec (transition_to new_state reason) w)) =
  if str_in new_state (allowed_targets (current_state (self w)))
  then new_state else current_state (self w).
Proof. rewrite exec_transition_to. now destruct (str_in _ _). Qed.

Lemma transition_to_history (new_state reason : string) (w : World) :
  state_history (self (exec (transition_to new_state reason) w)) =
  if str_in new_state (allowed_targets (current_state (self w)))
  then (state_history (self w) ++ [(new_state, now w (ticks w), reason)])%list
  else state_history (self w).
Proof. rewrite exec_transition_to. now destruct (str_in _ _). Qed.

(** ** The transition gate *)

(** C1. From any state, [transition_to] towards a target outside the
    allowed-target list of the current state returns [False] and leaves the
    current state and the history as they were; towards an allowed target it
    returns [True], makes the target the current state and appends exactly
    the one entry [(target, timestamp, reason)] to the history. *)
Theorem transition_to_gate (target reason : string) (w : World) :
  let w' := exec (transition_to target reason) w in
  (~ In target (allowed_targets (current_state (self w))) ->
     outcome (transition_to target reason) w = Ok false /\
     current_state (self w') = current_state (self w) /\
     state_history (self w') = state_history (self w)) /\
  (In target (allowed_targets (current_state (self w))) ->
     outcome (transition_to target reason) w = Ok true /\
     current_state (self w') = target /\
     state_history (self w') =
       (state_history (self w) ++ [(target, now w (ticks w), reason)])%list).
Proof.
  cbn zeta. unfold outcome.
  rewrite transition_to_state, transition_to_history, transition_to_run.
  cbn [fst].
  destruct (str_in target (allowed_targets (current_state (self w)))) eqn:E.
  - apply str_in_In in E. split; [intros H; contradiction | now intros _].
  - split; [now intros _ | intros H]. apply str_in_In in H. congruence.
Qed.

(** From Idle, Responding is refused and AlertReceived is accepted. *)
Lemma transition_to_gate_witness :
  (~ In STATE_RESPONDING (allowed_targets (current_state (self fresh_agent)))
   /\ outcome (transition_to STATE_RESPONDING "skip") fresh_agent = Ok false)
  /\
  (In STATE_ALERT (allowed_targets (current_state (self fresh_agent)))
   /\ current_state (self (exec (transition_to STATE_ALERT "alert")
                                fresh_agent)) = STATE_ALERT).
Proof.
  assert (N : ~ In STATE_RESPONDING
                   (allowed_targets (current_state (self fresh_agent))))
    by (vm_compute; intros [H|[]]; discriminate H).
  assert (Y : In STATE_ALERT
                 (allowed_targets (current_state (self fresh_agent))))
    by (vm_compute; left; reflexivity).
  split; split; [exact N | | exact Y | ].
  - destruct (transition_to_gate STATE_RESPONDING "skip" fresh_agent)
      as [HN _].
    exact (proj1 (HN N)).
  - destruct (transition_to_gate STATE_ALERT "alert" fresh_agent) as [_ HY].
    exact (proj1 (proj2 (HY Y))).
Defined.

(** ** Alert intake *)

Lemma enqueue_world_frame (event : DisasterEvent) (w : World) :
  let w' := enqueue_world event w in
  current_state (self w') = current_state (self w) /\
  goals (self w') =
    (goals (self w) ++ [new_goal event (now w (ticks w))])%list /\
  active_goal (self w') = active_goal (self w) /\
  state_history (self w') = state_history (self w) /\
  completed_missions (self w') = completed_missions (self w).
Proof. now repeat split. Qed.

(** C4. For a present event, [receive_alert] returns normally and appends
    exactly one goal to the queue: a pending goal for the event, of the kind
    given by the lookup on the disaster kind and of priority the ordinal of
    the severity.  When the agent is Idle it moves to AlertReceived through
    one recorded transition; in any other state neither the current state
    nor the history changes. *)
Theorem receive_alert_enqueues (event : DisasterEvent) (w : World) :
  let w' := exec (receive_alert (Some event)) w in
  outcome (receive_alert (Some event)) w = Ok tt /\
  (exists goal,
     goals (self w') = (goals (self w) ++ [goal])%list /\
     goal_type goal =
       match disaster_type event with
       | DisasterType.FLOOD => "EVACUATE_AND_RESCUE"
       | DisasterType.EARTHQUAKE => "SEARCH_AND_RESCUE"
       | DisasterType.FIRE => "FIRE_SUPPRESSION_AND_RESCUE"
       | DisasterType.LANDSLIDE => "DEBRIS_CLEARANCE_AND_RESCUE"
       | DisasterType.NONE => "GENERAL_RESCUE"
       end /\
     priority goal = SeverityLevel.value (severity event) /\
     target_zone goal = zone event /\
     disaster_event goal = event /\
     status goal = "PENDING") /\
  active_goal (self w') = active_goal (self w) /\
  completed_missions (self w') = completed_missions (self w) /\
  (current_state (self w) = STATE_IDLE ->
     current_state (self w') = STATE_ALERT /\
     exists ts reason,
       state_history (self w') =
         (state_history (self w) ++ [(STATE_ALERT, ts, reason)])%list) /\
  (current_state (self w) <> STATE_IDLE ->
     current_state (self w') = current_state (self w) /\
     state_history (self w') = state_history (self w)).
Proof.
  cbn zeta. unfold outcome, exec. rewrite receive_alert_some. cbn [fst snd].
  split; [reflexivity|].
  pose proof (enqueue_world_frame event w) as F. cbn zeta in F.
  destruct F as (Fs & Fg & Fa & Fh & Fc).
  pose proof (transition_to_frame STATE_ALERT (alert_reason event)
                (enqueue_world event w)) as T. cbn zeta in T.
  destruct T as (Tg & Ta & Tc).
  split.
  { exists (new_goal event (now w (ticks w))). split.
    - destruct (String.eqb _ _); congruence.
    - cbn. destruct (disaster_type event); repeat split; reflexivity. }
  split; [destruct (String.eqb _ _); congruence|].
  split; [destruct (String.eqb _ _); congruence|].
  destruct (String.eqb_spec (current_state (self w)) STATE_IDLE) as [E|E].
  - split; [intros _ | intros H; contradiction].
    rewrite transition_to_state, transition_to_history, Fs, Fh, E.
    split; [reflexivity|]. now eexists _, _.
  - split; [intros H; contradiction | intros _]. now split.
Qed.

(** The fresh agent takes a fire alert. *)
Lemma receive_alert_enqueues_witness :
  current_state (self fresh_agent) = STATE_IDLE /\
  current_state (self (exec (receive_alert (Some fire_alert)) fresh_agent))
    = STATE_ALERT.
Proof.
  assert (S : current_state (self fresh_agent) = STATE_IDLE) by reflexivity.
  split; [exact S|].
  destruct (receive_alert_enqueues fire_alert fresh_agent)
    as (_ & _ & _ & _ & I & _).
  exact (proj1 (I S)).
Defined.

(** C9. [receive_alert(None)] returns at once: the whole world, and with
    it the current state, the queue, the active goal, the history and the
    mission counter, is exactly as before. *)
Theorem receive_alert_none_noop (w : World) :
  receive_alert None w = (Ok tt, w) /\
  let w' := exec (receive_alert None) w in
  current_state (self w') = current_state (self w) /\
  goals (self w') = goals (self w) /\
  active_goal (self w') = active_goal (self w) /\
  state_history (self w') = state_history (self w) /\
  completed_missions (self w') = completed_missions (self w).
Proof. now repeat split. Qed.

(** C8. Without an active goal, [execute_response] and [complete_mission]
    return normally and leave the world untouched: no transition, and the
    queue, the counter, the history and every goal are as before. *)
Theorem no_active_goal_noop (w : World) :
  active_goal (self w) = None ->
  execute_response w = (Ok tt, w) /\ complete_mission w = (Ok tt, w).
Proof.
  intros H. split.
  - now apply execute_response_none.
  - now apply complete_mission_none.
Qed.

(** The fresh agent has no active goal. *)
Lemma no_active_goal_noop_witness :
  active_goal (self fresh_agent) = None /\
  execute_response fresh_agent = (Ok tt, fresh_agent) /\
  complete_mission fresh_agent = (Ok tt, fresh_agent).
Proof.
  assert (H : active_goal (self fresh_agent) = None) by reflexivity.
  split; [exact H | exact (no_active_goal_noop fresh_agent H)].
Defined.

(** ** Response actions *)






(** ** Goal selection *)

Lemma select_world_frame (top : RescueGoal) (rest : list RescueGoal)
  (w : World) :
  let w' := select_world top rest w in
  current_state (self w') = current_state (self w) /\
  goals (self w') = rest /\
  active_goal (self w') = Some (set_status "ACTIVE" top) /\
  state_history (self w') = state_history (self w) /\
  completed_missions (self w') = completed_missions (self w).
Proof. now repeat split. Qed.

(** C2. On a non-empty queue the selection made by [assess_situation]
    returns normally, removes one goal and makes it the active goal: the
    active goal is that goal with its status set to ACTIVE and every other
    field as it was.  That goal has the greatest priority of the queue and
    is the earliest queued goal of that priority; the goals left keep,
    priority by priority, the order they had, so ties are served
    first-in-first-out.  With priorities 2, 4, 4, 1 queued in that order,
    all PENDING, four selections take the first priority-4 goal, the second
    priority-4 goal, the priority-2 goal and the priority-1 goal, each
    ACTIVE once selected. *)
Theorem selection_is_priority_fifo :
  (forall w,
     goals (self w) <> [] ->
     let w' := exec assess_situation w in
     outcome assess_situation w = Ok tt /\
     exists g before after,
       goals (self w) = (before ++ g :: after)%list /\
       Forall (fun x => (priority x < priority g)%Z) before /\
       Forall (fun x => (priority x <= priority g)%Z) after /\
       active_goal (self w') = Some (set_status "ACTIVE" g) /\
       active_goal (self w') =
         Some (mkGoal (goal_type g) (priority g) (target_zone g)
                      (disaster_event g) "ACTIVE" (created_at g)) /\
       Permutation (goals (self w')) (before ++ after) /\
       desc_sorted priority (goals (self w')) /\
       forall p,
         filter (fun x => (priority x =? p)%Z) (goals (self w')) =
         filter (fun x => (priority x =? p)%Z) (before ++ after)) /\
  (forall id clock,
     let w0 := receive_all four_alerts (RescueAgent_init id clock) in
     let w1 := exec assess_situation w0 in
     let w2 := exec assess_situation w1 in
     let w3 := exec assess_situation w2 in
     let w4 := exec assess_situation w3 in
     map priority (goals (self w0)) = [2; 4; 4; 1]%Z /\
     map active_target [w1; w2; w3; w4] =
       [ Some ("Zone-B", 4%Z); Some ("Zone-C", 4%Z);
         Some ("Zone-A", 2%Z); Some ("Zone-D", 1%Z) ] /\
     goals (self w4) = [] /\
     map status (goals (self w0)) =
       ["PENDING"; "PENDING"; "PENDING"; "PENDING"] /\
     map (fun w => option_map status (active_goal (self w)))
         [w1; w2; w3; w4] =
       [Some "ACTIVE"; Some "ACTIVE"; Some "ACTIVE"; Some "ACTIVE"]).
Proof.
  split.
  - intros w H. cbn zeta.
    destruct (assess_situation_select w H) as (top & rest & E & R).
    unfold outcome, exec. rewrite R. cbn [fst snd].
    split; [reflexivity|].
    destruct (sort_desc_head priority _ _ _ E) as (l1 & l2 & G & H1 & H2 & ->).
    exists top, l1, l2.
    pose proof (transition_to_frame STATE_ASSESSING
                  ("Assessing " ++ goal_type (set_status "ACTIVE" top))
                  (select_world top (sort_desc priority (l1 ++ l2)) w)) as T.
    cbn zeta in T. destruct T as (-> & -> & _).
    cbn [select_world log_world self goals active_goal set_execution_log
         set_active_goal set_goals].
    repeat split; auto.
    + symmetry. apply sort_desc_perm.
    + apply sort_desc_sorted.
    + intros p. apply sort_desc_stable.
  - intros id clock. cbn zeta. repeat split; reflexivity.
Qed.

(** Selection on the queue of the four sample alerts. *)
Lemma selection_is_priority_fifo_witness :
  goals (self (receive_all four_alerts fresh_agent)) <> [] /\
  outcome assess_situation (receive_all four_alerts fresh_agent) = Ok tt /\
  option_map status
    (active_goal
       (self (exec assess_situation (receive_all four_alerts fresh_agent))))
  = Some "ACTIVE".
Proof.
  assert (H : goals (self (receive_all four_alerts fresh_agent)) <> [])
    by (vm_compute; discriminate).
  split; [exact H|].
  destruct selection_is_priority_fifo as [G _].
  destruct (G _ H) as (O & g & before & after & _ & _ & _ & _ & A & _).
  split; [exact O|]. rewrite A. reflexivity.
Defined.

(** ** Assessment with nothing queued *)

(** C6, as the code has it.  [assess_situation] on an empty queue, in
    AlertReceived or in Assessing, returns normally and moves the agent to
    Idle through one recorded transition of reason "No pending goals"; it
    selects nothing: the queue stays empty and the active-goal slot keeps
    what it held, so there is no active goal afterwards when there was none
    before. *)
Theorem assess_empty_queue (w : World) :
  goals (self w) = [] ->
  current_state (self w) = STATE_ALERT \/
  current_state (self w) = STATE_ASSESSING ->
  let w' := exec assess_situation w in
  outcome assess_situation w = Ok tt /\
  current_state (self w') = STATE_IDLE /\
  state_history (self w') =
    (state_history (self w)
     ++ [(STATE_IDLE, now w (ticks w), "No pending goals")])%list /\
  goals (self w') = [] /\
  active_goal (self w') = active_goal (self w) /\
  completed_missions (self w') = completed_missions (self w) /\
  (active_goal (self w) = None -> active_goal (self w') = None).
Proof.
  intros G S. cbn zeta. unfold outcome, exec.
  rewrite (assess_situation_empty w G). cbn [fst snd].
  pose proof (transition_to_frame STATE_IDLE "No pending goals" w) as T.
  cbn zeta in T. destruct T as (-> & -> & ->).
  rewrite transition_to_state, transition_to_history.
  assert (A : str_in STATE_IDLE (allowed_targets (current_state (self w)))
              = true) by (destruct S as [-> | ->]; reflexivity).
  rewrite A. repeat split; auto.
Qed.

(** A second assessment once the only goal has been taken. *)
Lemma assess_empty_queue_witness :
  goals (self assessing_agent) = [] /\
  (current_state (self assessing_agent) = STATE_ALERT \/
   current_state (self assessing_agent) = STATE_ASSESSING) /\
  current_state (self (exec assess_situation assessing_agent)) = STATE_IDLE.
Proof.
  assert (G : goals (self assessing_agent) = []) by reflexivity.
  assert (S : current_state (self assessing_agent) = STATE_ALERT \/
              current_state (self assessing_agent) = STATE_ASSESSING)
    by (right; reflexivity).
  split; [exact G|]. split; [exact S|].
  exact (proj1 (proj2 (assess_empty_queue assessing_agent G S))).
Defined.

(** C6 fails as stated.  After one alert and one assessment the queue is
    empty and the agent is Assessing with its goal active: a further
    [assess_situation] goes to Idle and the goal is still active.  After the
    response has started the queue is empty and the agent is Responding: a
    further [assess_situation] is rejected and the agent stays Responding,
    with no entry added to the history. *)
Lemma assess_empty_queue_counterexample :
  (goals (self assessing_agent) = [] /\
   current_state (self (exec assess_situation assessing_agent)) = STATE_IDLE /\
   active_goal (self (exec assess_situation assessing_agent)) <> None) /\
  (goals (self responding_agent) = [] /\
   current_state (self (exec assess_situation responding_agent))
     = STATE_RESPONDING /\
   state_history (self (exec assess_situation responding_agent))
     = state_history (self responding_agent)).
Proof.
  split; [split; [|split] | split; [|split]];
    vm_compute; solve [reflexivity | discriminate].
Qed.

(** ** Projections through transitions and logging *)

Lemma transition_to_goals (new_state reason : string) (w : World) :
  goals (self (exec (transition_to new_state reason) w)) = goals (self w).
Proof. apply transition_to_frame. Qed.

Lemma transition_to_active (new_state reason : string) (w : World) :
  active_goal (self (exec (transition_to new_state reason) w)) =
  active_goal (self w).
Proof. apply transition_to_frame. Qed.

Lemma transition_to_completed (new_state reason : string) (w : World) :
  completed_missions (self (exec (transition_to new_state reason) w)) =
  completed_missions (self w).
Proof. apply transition_to_frame. Qed.

Lemma log_all_state (ms : list string) (w : World) :
  current_state (self (log_all ms w)) = current_state (self w).
Proof. apply log_all_frame. Qed.

Lemma log_all_goals (ms : list string) (w : World) :
  goals (self (log_all ms w)) = goals (self w).
Proof. apply log_all_frame. Qed.

Lemma log_all_active (ms : list string) (w : World) :
  active_goal (self (log_all ms w)) = active_goal (self w).
Proof. apply log_all_frame. Qed.

Lemma log_all_history (ms : list string) (w : World) :
  state_history (self (log_all ms w)) = state_history (self w).
Proof. apply log_all_frame. Qed.

Lemma log_all_completed (ms : list string) (w : World) :
  completed_missions (self (log_all ms w)) = completed_missions (self w).
Proof. apply log_all_frame. Qed.

Create Rewrite HintDb fsm.

#[local] Hint Rewrite transition_to_state transition_to_history
  transition_to_goals transition_to_active transition_to_completed
  log_all_state log_all_goals log_all_active log_all_history
  log_all_completed : fsm.

(** Normalise the projections of a world built from the transformers. *)
Ltac fsm :=
  repeat (autorewrite with fsm;
          cbn [enqueue_world select_world finish_world release_world
               log_world self now ticks stdout agent_id current_state goals
               active_goal state_history completed_missions execution_log
               set_current_state set_goals set_active_goal set_state_history
               set_completed_missions set_execution_log]).

(** Look up the table where both states are known. *)
Ltac table :=
  repeat match goal with
  | |- context [str_in ?t (allowed_targets ?s)] =>
      let v := eval vm_compute in (str_in t (allowed_targets s)) in
      match v with
      | true => change (str_in t (allowed_targets s)) with true
      | false => change (str_in t (allowed_targets s)) with false
      end;
      cbv iota
  end.

(** Settle a goal about concrete states. *)
Ltac pick_state :=
  solve [ reflexivity | assumption | left; pick_state | right; pick_state ].

Ltac states :=
  cbn;
  unfold STATE_IDLE, STATE_ALERT, STATE_ASSESSING, STATE_RESPONDING,
         STATE_COMPLETING in *;
  repeat match goal with |- _ /\ _ => split end;
  intros;
  solve [ pick_state | intuition congruence ].

(** ** Dispatch and the observable states *)

Lemma run_fsm_cycle_dispatch (w : World) :
  run_fsm_cycle w =
  if String.eqb (current_state (self w)) STATE_IDLE then (Ok tt, w)
  else if String.eqb (current_state (self w)) STATE_ALERT
       then assess_situation w
  else if String.eqb (current_state (self w)) STATE_ASSESSING
       then execute_response w
  else if String.eqb (current_state (self w)) STATE_RESPONDING
       then complete_mission w
  else (Ok tt, w).
Proof.
  unfold run_fsm_cycle. mrun.
  repeat (destruct (String.eqb _ _); [reflexivity|]). reflexivity.
Qed.

(** No operation raises. *)
Lemma run_op_returns (o : Op) (w : World) : outcome (run_op o) w = Ok tt.
Proof.
  assert (A : outcome assess_situation w = Ok tt).
  { unfold outcome. destruct (goals (self w)) as [|g gs] eqn:G.
    - now rewrite (assess_situation_empty w G).
    - destruct (assess_situation_select w) as (top & rest & _ & ->);
        [congruence | reflexivity]. }
  assert (E : outcome execute_response w = Ok tt).
  { unfold outcome. destruct (active_goal (self w)) as [g|] eqn:G.
    - now rewrite (execute_response_some g w G).
    - now rewrite (execute_response_none w G). }
  assert (C : outcome complete_mission w = Ok tt).
  { unfold outcome. destruct (active_goal (self w)) as [g|] eqn:G.
    - now rewrite (complete_mission_some g w G).
    - now rewrite (complete_mission_none w G). }
  destruct o as [[event|]| | | |]; cbn [run_op]; auto.
  - unfold outcome. now rewrite receive_alert_some.
  - unfold outcome in *. rewrite run_fsm_cycle_dispatch.
    repeat (destruct (String.eqb _ _); [assumption || reflexivity|]).
    reflexivity.
Qed.

Lemma dispatch_ok_op (o : Op) (w : World) :
  dispatch_ok w -> dispatch_ok (exec (run_op o) w).
Proof.
  assert (A : dispatch_ok w -> dispatch_ok (exec assess_situation w)).
  { intros [S Ha]. unfold exec. destruct (goals (self w)) as [|g0 gs] eqn:G.
    - rewrite (assess_situation_empty w G). cbn [snd].
      unfold dispatch_ok. fsm.
      destruct S as [S|[S|[S|S]]]; rewrite S in *; states.
    - destruct (assess_situation_select w) as (top & rest & _ & ->);
        [congruence|]. cbn [snd]. unfold dispatch_ok. fsm.
      destruct S as [S|[S|[S|S]]]; rewrite S in *; states. }
  assert (E : dispatch_ok w -> dispatch_ok (exec execute_response w)).
  { intros [S Ha]. unfold exec. destruct (active_goal (self w)) as [g|] eqn:G.
    - rewrite (execute_response_some g w G). cbn [snd].
      unfold dispatch_ok. fsm. rewrite G.
      destruct S as [S|[S|[S|S]]]; rewrite S in *; states.
    - rewrite (execute_response_none w G). cbn [snd].
      split; [exact S | now rewrite G]. }
  assert (C : dispatch_ok w -> dispatch_ok (exec complete_mission w)).
  { intros [S Ha]. unfold exec. destruct (active_goal (self w)) as [g|] eqn:G.
    - rewrite (complete_mission_some g w G). cbn [snd].
      unfold dispatch_ok. fsm.
      destruct S as [S|[S|[S|S]]]; rewrite S in *; states.
    - rewrite (complete_mission_none w G). cbn [snd].
      split; [exact S | now rewrite G]. }
  intros I. destruct o as [[event|]| | | |]; cbn [run_op]; auto.
  - destruct I as [S Ha]. unfold exec. rewrite receive_alert_some. cbn [snd].
    unfold dispatch_ok.
    destruct S as [S|[S|[S|S]]]; rewrite S in *; cbn [String.eqb Ascii.eqb Bool.eqb STATE_IDLE STATE_ALERT STATE_ASSESSING STATE_RESPONDING]; fsm; rewrite ?S; states.
  - unfold exec in *. rewrite run_fsm_cycle_dispatch.
    repeat (destruct (String.eqb _ _); [now auto|]). exact I.
Qed.

(** ** One dispatcher step from each state *)

Lemma cycle_from_idle (w : World) :
  current_state (self w) = STATE_IDLE -> run_fsm_cycle w = (Ok tt, w).
Proof. intros S. rewrite run_fsm_cycle_dispatch, S. reflexivity. Qed.

Lemma cycle_from_alert (w : World) :
  current_state (self w) = STATE_ALERT ->
  goals (self w) <> [] ->
  let w' := exec run_fsm_cycle w in
  current_state (self w') = STATE_ASSESSING /\
  (exists g, active_goal (self w') = Some g) /\
  S (length (goals (self w'))) = length (goals (self w)) /\
  completed_missions (self w') = completed_missions (self w) /\
  exists ts reason,
    state_history (self w') =
      (state_history (self w) ++ [(STATE_ASSESSING, ts, reason)])%list.
Proof.
  intros S G. cbn zeta. unfold exec. rewrite run_fsm_cycle_dispatch, S.
  cbn [String.eqb Ascii.eqb Bool.eqb STATE_ALERT STATE_IDLE].
  destruct (assess_situation_select w G) as (top & rest & E & ->).
  cbn [snd]. fsm. rewrite S. table.
  repeat split.
  - now eexists.
  - rewrite (Permutation_length (sort_desc_perm priority (goals (self w)))).
    now rewrite E.
  - now eexists _, _.
Qed.

Lemma cycle_from_alert_empty (w : World) :
  current_state (self w) = STATE_ALERT ->
  goals (self w) = [] ->
  current_state (self (exec run_fsm_cycle w)) = STATE_IDLE.
Proof.
  intros S G. unfold exec. rewrite run_fsm_cycle_dispatch, S.
  cbn [String.eqb Ascii.eqb Bool.eqb STATE_ALERT STATE_IDLE].
  rewrite (assess_situation_empty w G). cbn [snd]. fsm. rewrite S. now table.
Qed.

Lemma cycle_from_assessing (w : World) (g : RescueGoal) :
  current_state (self w) = STATE_ASSESSING ->
  active_goal (self w) = Some g ->
  let w' := exec run_fsm_cycle w in
  current_state (self w') = STATE_RESPONDING /\
  active_goal (self w') = Some g /\
  goals (self w') = goals (self w) /\
  completed_missions (self w') = completed_missions (self w) /\
  exists ts reason,
    state_history (self w') =
      (state_history (self w) ++ [(STATE_RESPONDING, ts, reason)])%list.
Proof.
  intros S G. cbn zeta. unfold exec. rewrite run_fsm_cycle_dispatch, S.
  cbn [String.eqb Ascii.eqb Bool.eqb STATE_ALERT STATE_IDLE STATE_ASSESSING].
  rewrite (execute_response_some g w G). cbn [snd]. fsm. rewrite S.
  table.
  repeat split; auto. now eexists _, _.
Qed.

Lemma cycle_from_responding (w : World) (g : RescueGoal) :
  current_state (self w) = STATE_RESPONDING ->
  active_goal (self w) = Some g ->
  let w' := exec run_fsm_cycle w in
  current_state (self w') = STATE_IDLE /\
  active_goal (self w') = None /\
  goals (self w') = goals (self w) /\
  completed_missions (self w') = completed_missions (self w) + 1 /\
  exists ts1 ts2,
    state_history (self w') =
      (state_history (self w)
       ++ [(STATE_COMPLETING, ts1, "Mission wrap-up");
           (STATE_IDLE, ts2, "Ready for next assignment")])%list.
Proof.
  intros S G. cbn zeta. unfold exec. rewrite run_fsm_cycle_dispatch, S.
  cbn [String.eqb Ascii.eqb Bool.eqb STATE_ALERT STATE_IDLE STATE_ASSESSING
       STATE_RESPONDING].
  rewrite (complete_mission_some g w G). cbn [snd]. fsm. rewrite S.
  table.
  repeat split; auto. rewrite <- app_assoc. now eexists _, _.
Qed.

Lemma run_until_idle_done (fuel : nat) (w : World) :
  current_state (self w) = STATE_IDLE ->
  run_until_idle fuel w = Some (Ok tt, w).
Proof. intros S. destruct fuel; cbn [run_until_idle]; now rewrite S. Qed.

Lemma run_until_idle_step (fuel : nat) (w : World) :
  current_state (self w) <> STATE_IDLE ->
  run_until_idle (S fuel) w = run_until_idle fuel (exec run_fsm_cycle w).
Proof.
  intros S. cbn [run_until_idle].
  destruct (String.eqb_spec (current_state (self w)) STATE_IDLE) as [E|_];
    [contradiction|].
  pose proof (run_op_returns OpRunFsmCycle w) as R.
  unfold outcome, exec in *. cbn [run_op] in R.
  destruct (run_fsm_cycle w) as [r w']. cbn [fst snd] in *. now subst r.
Qed.

Lemma cycles_S (n : nat) (w : World) :
  cycles (S n) w = cycles n (exec run_fsm_cycle w).
Proof. reflexivity. Qed.

(** ** Histories *)

Lemma edge_table (s t : string) :
  edge s t <->
  In (s, t)
     [ (STATE_IDLE, STATE_ALERT);
       (STATE_ALERT, STATE_ASSESSING); (STATE_ALERT, STATE_IDLE);
       (STATE_ASSESSING, STATE_RESPONDING); (STATE_ASSESSING, STATE_IDLE);
       (STATE_RESPONDING, STATE_COMPLETING);
       (STATE_COMPLETING, STATE_IDLE) ].
Proof.
  unfold edge, allowed_targets, VALID_TRANSITIONS. cbn [dict_get]. split.
  - repeat match goal with
           | |- context [String.eqb ?a s] =>
               destruct (String.eqb_spec a s) as [<-|_];
               [cbn; intros H;
                repeat (destruct H as [<-|H]; [auto 10|]); destruct H|]
           end.
    cbn. tauto.
  - intros H. repeat (destruct H as [H|H]; [injection H as <- <-; cbn; auto|]).
    destruct H.
Qed.

Lemma chain_valid_snoc (h : list HistoryEntry) (s : string)
  (e : HistoryEntry) :
  chain_valid h -> ends_in h s -> edge s (entry_state e) ->
  chain_valid (h ++ [e]).
Proof.
  intros C (l & e0 & -> & <-) E l1 e1 e2 l2 H.
  destruct (exists_last (l := e1 :: e2 :: l2)) as (l' & x & L);
    [discriminate|].
  destruct l' as [|y [|z l']]; cbn in L.
  - discriminate.
  - injection L as -> -> ->.
    change (l1 ++ [y; x])%list with (l1 ++ [y] ++ [x])%list in H.
    rewrite app_assoc in H.
    apply app_inj_tail in H. destruct H as [H ->].
    apply app_inj_tail in H. destruct H as [_ ->]. exact E.
  - injection L as -> -> ->.
    change (l1 ++ y :: z :: l' ++ [x])%list
      with (l1 ++ (y :: z :: l') ++ [x])%list in H.
    rewrite app_assoc in H.
    apply app_inj_tail in H. destruct H as [H _].
    exact (C l1 y z l' H).
Qed.

Lemma evolves_refl (w : World) : evolves w w.
Proof. split; [exists []; now rewrite app_nil_r | auto]. Qed.

Lemma evolves_trans (w1 w2 w3 : World) :
  evolves w1 w2 -> evolves w2 w3 -> evolves w1 w3.
Proof.
  intros [(s1 & E1) H1] [(s2 & E2) H2]. split; [|auto].
  exists (s1 ++ s2)%list. now rewrite E2, E1, app_assoc.
Qed.

Lemma evolves_frame (w w' : World) :
  current_state (self w') = current_state (self w) ->
  state_history (self w') = state_history (self w) ->
  evolves w w'.
Proof.
  intros S H. split.
  - exists []. now rewrite app_nil_r.
  - unfold history_ok. now rewrite S, H.
Qed.

Lemma evolves_transition_to (new_state reason : string) (w : World) :
  evolves w (exec (transition_to new_state reason) w).
Proof.
  split.
  - rewrite transition_to_history. destruct (str_in _ _).
    + now eexists.
    + exists []. now rewrite app_nil_r.
  - intros [C L]. unfold history_ok.
    rewrite transition_to_state, transition_to_history.
    destruct (str_in _ _) eqn:E; [|now split].
    apply str_in_In in E. split.
    + eapply chain_valid_snoc; eauto.
    + now eexists _, _.
Qed.

Lemma evolves_op (o : Op) (w : World) : evolves w (exec (run_op o) w).
Proof.
  assert (A : evolves w (exec assess_situation w)).
  { unfold exec. destruct (goals (self w)) as [|g0 gs] eqn:G.
    - rewrite (assess_situation_empty w G). apply evolves_transition_to.
    - destruct (assess_situation_select w) as (top & rest & _ & ->);
        [congruence|]. cbn [snd].
      eapply evolves_trans; [|apply evolves_transition_to].
      now apply evolves_frame. }
  assert (E : evolves w (exec execute_response w)).
  { unfold exec. destruct (active_goal (self w)) as [g|] eqn:G.
    - rewrite (execute_response_some g w G). cbn [snd].
      eapply evolves_trans; [apply evolves_transition_to|].
      apply evolves_frame; now fsm.
    - rewrite (execute_response_none w G). apply evolves_refl. }
  assert (C : evolves w (exec complete_mission w)).
  { unfold exec. destruct (active_goal (self w)) as [g|] eqn:G.
    - rewrite (complete_mission_some g w G). cbn [snd].
      eapply evolves_trans; [|apply evolves_transition_to].
      eapply evolves_trans; [|now apply evolves_frame].
      eapply evolves_trans; [|apply evolves_transition_to].
      now apply evolves_frame.
    - rewrite (complete_mission_none w G). apply evolves_refl. }
  destruct o as [[event|]| | | |]; cbn [run_op]; auto.
  - unfold exec. rewrite receive_alert_some. cbn [snd].
    destruct (String.eqb _ _).
    + eapply evolves_trans; [|apply evolves_transition_to].
      now apply evolves_frame.
    + now apply evolves_frame.
  - apply evolves_refl.
  - unfold exec in *. rewrite run_fsm_cycle_dispatch.
    repeat (destruct (String.eqb _ _); [assumption || apply evolves_refl|]).
    apply evolves_refl.
Qed.

Lemma evolves_ops (ops : list Op) (w : World) : evolves w (run_ops ops w).
Proof.
  revert w. induction ops as [|o ops IH]; intros w; [apply evolves_refl|].
  cbn [run_ops fold_left]. eapply evolves_trans; [apply evolves_op|].
  apply IH.
Qed.

Lemma history_ok_init (id : string) (clock : nat -> string) :
  history_ok (RescueAgent_init id clock).
Proof.
  split.
  - intros [|? [|? ?]] e1 e2 l2 H; discriminate.
  - now exists [], (STATE_IDLE, clock 0, "Agent initialized").
Qed.

Lemma dispatch_ok_init (id : string) (clock : nat -> string) :
  dispatch_ok (RescueAgent_init id clock).
Proof. split; [now left | cbn; states]. Qed.

Lemma dispatch_ok_ops (ops : list Op) (w : World) :
  dispatch_ok w -> dispatch_ok (run_ops ops w).
Proof.
  revert w. induction ops as [|o ops IH]; intros w I; [exact I|].
  cbn [run_ops fold_left]. apply IH. now apply dispatch_ok_op.
Qed.

(** C7. After any sequence of [receive_alert], [assess_situation],
    [execute_response], [complete_mission] and [run_fsm_cycle] calls on a
    freshly built agent, every two consecutive states of the history are an
    edge of the transition table, the last entry of the history is for the
    current state, and whatever is called next only appends to the history.
    The table has exactly the edges Idle to AlertReceived, AlertReceived to
    Assessing or Idle, Assessing to Responding or Idle, Responding to
    Completing and Completing to Idle. *)
Theorem history_follows_table (id : string) (clock : nat -> string)
  (ops : list Op) :
  let w := run_ops ops (RescueAgent_init id clock) in
  chain_valid (state_history (self w)) /\
  ends_in (state_history (self w)) (current_state (self w)) /\
  (forall more,
     exists suffix,
       state_history (self (run_ops more w)) =
         (state_history (self w) ++ suffix)%list) /\
  (forall s t,
     edge s t <->
     In (s, t)
        [ (STATE_IDLE, STATE_ALERT);
          (STATE_ALERT, STATE_ASSESSING); (STATE_ALERT, STATE_IDLE);
          (STATE_ASSESSING, STATE_RESPONDING); (STATE_ASSESSING, STATE_IDLE);
          (STATE_RESPONDING, STATE_COMPLETING);
          (STATE_COMPLETING, STATE_IDLE) ]).
Proof.
  cbn zeta.
  destruct (evolves_ops ops (RescueAgent_init id clock)) as [_ H].
  destruct (H (history_ok_init id clock)) as [C L].
  repeat split; auto.
  - intros more. apply evolves_ops.
  - apply edge_table.
  - apply edge_table.
Qed.

(** ** Full missions *)

Lemma receive_alert_from_idle (w : World) (event : DisasterEvent) :
  current_state (self w) = STATE_IDLE ->
  let w' := exec (receive_alert (Some event)) w in
  current_state (self w') = STATE_ALERT /\
  (exists goal, goals (self w') = (goals (self w) ++ [goal])%list) /\
  completed_missions (self w') = completed_missions (self w) /\
  exists ts reason,
    state_history (self w') =
      (state_history (self w) ++ [(STATE_ALERT, ts, reason)])%list.
Proof.
  intros S. cbn zeta. unfold exec. rewrite receive_alert_some, S.
  cbn [String.eqb Ascii.eqb Bool.eqb STATE_IDLE snd]. fsm. rewrite S. table.
  repeat split; [now eexists | now eexists _, _].
Qed.

(** One mission: the alert is taken in Idle and the machine is stepped
    until it is Idle again. *)
Lemma mission_cycle (w : World) (event : DisasterEvent) (fuel : nat) :
  current_state (self w) = STATE_IDLE ->
  3 <= fuel ->
  exists w',
    run_until_idle fuel (exec (receive_alert (Some event)) w)
      = Some (Ok tt, w') /\
    w' = cycles 3 (exec (receive_alert (Some event)) w) /\
    current_state (self w') = STATE_IDLE /\
    active_goal (self w') = None /\
    completed_missions (self w') = completed_missions (self w) + 1 /\
    length (goals (self w')) = length (goals (self w)) /\
    exists t1 r1 t2 r2 t3 r3 t4 t5,
      state_history (self w') =
        (state_history (self w)
         ++ [ (STATE_ALERT, t1, r1);
              (STATE_ASSESSING, t2, r2);
              (STATE_RESPONDING, t3, r3);
              (STATE_COMPLETING, t4, "Mission wrap-up");
              (STATE_IDLE, t5, "Ready for next assignment") ])%list.
Proof.
  intros S F.
  destruct (receive_alert_from_idle w event S)
    as (S1 & (goal & G1) & C1 & t1 & r1 & H1).
  set (w1 := exec (receive_alert (Some event)) w) in *.
  assert (N1 : goals (self w1) <> []).
  { rewrite G1. now destruct (goals (self w)). }
  destruct (cycle_from_alert w1 S1 N1)
    as (S2 & (g & A2) & L2 & C2 & t2 & r2 & H2).
  set (w2 := exec run_fsm_cycle w1) in *.
  destruct (cycle_from_assessing w2 g S2 A2)
    as (S3 & A3 & G3 & C3 & t3 & r3 & H3).
  set (w3 := exec run_fsm_cycle w2) in *.
  destruct (cycle_from_responding w3 g S3 A3)
    as (S4 & A4 & G4 & C4 & t4 & t5 & H4).
  set (w4 := exec run_fsm_cycle w3) in *.
  exists w4.
  destruct fuel as [|[|[|fuel]]]; try lia.
  repeat split; auto.
  - rewrite run_until_idle_step by (rewrite S1; states).
    fold w2. rewrite run_until_idle_step by (rewrite S2; states).
    fold w3. rewrite run_until_idle_step by (rewrite S3; states).
    fold w4. now apply run_until_idle_done.
  - congruence.
  - rewrite G4, G3. apply eq_add_S. rewrite L2, G1, length_app. cbn. lia.
  - exists t1, r1, t2, r2, t3, r3, t4, t5.
    rewrite H4, H3, H2, H1, <- !app_assoc. reflexivity.
Qed.

Lemma missions_in_a_row (fuel : nat) (events : list DisasterEvent)
  (w : World) :
  3 <= fuel ->
  current_state (self w) = STATE_IDLE ->
  exists w',
    run_simulation fuel (map Some events) w = Some (Ok tt, w') /\
    current_state (self w') = STATE_IDLE /\
    completed_missions (self w') =
      completed_missions (self w) + length events /\
    length (goals (self w')) = length (goals (self w)) /\
    length (state_history (self w')) =
      length (state_history (self w)) + 5 * length events.
Proof.
  intros F. revert w. induction events as [|event events IH]; intros w S.
  - exists w. cbn. repeat split; auto; lia.
  - destruct (mission_cycle w event fuel S F)
      as (w1 & R & _ & S1 & _ & C1 & G1 & (t1 & r1 & t2 & r2 & t3 & r3 & t4
          & t5 & H1)).
    destruct (IH w1 S1) as (w' & R' & S' & C' & G' & H').
    exists w'. cbn [map run_simulation].
    pose proof (run_op_returns (OpReceiveAlert (Some event)) w) as O.
    unfold outcome, exec in *. cbn [run_op] in O.
    destruct (receive_alert (Some event) w) as [r w0]. cbn [fst snd] in *.
    subst r. rewrite R, R'.
    repeat split; auto.
    + rewrite C', C1. cbn [length]. lia.
    + congruence.
    + rewrite H', H1, length_app. cbn [length]. lia.
Qed.

(** C3. An Idle agent that takes one alert and is stepped until Idle again
    goes through AlertReceived, Assessing, Responding and Completing: the
    stepping stops after three dispatcher calls, [completed_missions] has
    grown by exactly 1 and the history by exactly the five entries of these
    transitions, the last two recorded within [complete_mission].  Hence a
    fresh agent fed N events, each followed by stepping to Idle, ends with
    [completed_missions] equal to N and an empty queue. *)
Theorem full_cycle_completes_one_mission :
  (forall (w : World) (event : DisasterEvent) (fuel : nat),
     current_state (self w) = STATE_IDLE ->
     3 <= fuel ->
     exists w',
       run_until_idle fuel (exec (receive_alert (Some event)) w)
         = Some (Ok tt, w') /\
       current_state (self w') = STATE_IDLE /\
       completed_missions (self w') = completed_missions (self w) + 1 /\
       length (state_history (self w')) =
         length (state_history (self w)) + 5 /\
       exists t1 r1 t2 r2 t3 r3 t4 t5,
         state_history (self w') =
           (state_history (self w)
            ++ [ (STATE_ALERT, t1, r1);
                 (STATE_ASSESSING, t2, r2);
                 (STATE_RESPONDING, t3, r3);
                 (STATE_COMPLETING, t4, "Mission wrap-up");
                 (STATE_IDLE, t5, "Ready for next assignment") ])%list) /\
  (forall (id : string) (clock : nat -> string)
          (events : list DisasterEvent) (fuel : nat),
     3 <= fuel ->
     exists w',
       run_simulation fuel (map Some events) (RescueAgent_init id clock)
         = Some (Ok tt, w') /\
       current_state (self w') = STATE_IDLE /\
       completed_missions (self w') = length events /\
       goals (self w') = []).
Proof.
  split.
  - intros w event fuel S F.
    destruct (mission_cycle w event fuel S F)
      as (w' & R & _ & S' & _ & C' & _ & (t1 & r1 & t2 & r2 & t3 & r3 & t4
          & t5 & H')).
    exists w'. repeat split; auto.
    + rewrite H', length_app. reflexivity.
    + now exists t1, r1, t2, r2, t3, r3, t4, t5.
  - intros id clock events fuel F.
    destruct (missions_in_a_row fuel events (RescueAgent_init id clock) F
                eq_refl) as (w' & R & S' & C' & G' & _).
    exists w'. repeat split; auto.
    now apply length_zero_iff_nil.
Qed.

(** One mission of the fresh agent. *)
Lemma full_cycle_completes_one_mission_witness :
  current_state (self fresh_agent) = STATE_IDLE /\
  3 <= 3 /\
  exists w',
    run_until_idle 3 (exec (receive_alert (Some fire_alert)) fresh_agent)
      = Some (Ok tt, w') /\
    completed_missions (self w') = completed_missions (self fresh_agent) + 1.
Proof.
  assert (S : current_state (self fresh_agent) = STATE_IDLE) by reflexivity.
  assert (F : 3 <= 3) by lia.
  split; [exact S|]. split; [exact F|].
  destruct full_cycle_completes_one_mission as [C _].
  destruct (C fresh_agent fire_alert 3 S F) as (w' & R & _ & M & _).
  exists w'. split; [exact R | exact M].
Defined.

(** ** Return to Idle *)

(** C10. In a state reached by any sequence of operations on a fresh agent
    and other than Idle, the agent is in AlertReceived, Assessing or
    Responding.  One dispatcher step takes AlertReceived to Assessing or
    Idle, Assessing (where an active goal is present) to Responding, and
    Responding to Idle; so at most three steps reach Idle, and the loop
    stepping the machine until Idle stops, without raising, on any budget of
    three iterations or more. *)
Theorem idle_within_three_cycles (id : string) (clock : nat -> string)
  (ops : list Op) :
  let w := run_ops ops (RescueAgent_init id clock) in
  current_state (self w) <> STATE_IDLE ->
  (current_state (self w) = STATE_ALERT \/
   current_state (self w) = STATE_ASSESSING \/
   current_state (self w) = STATE_RESPONDING) /\
  (current_state (self w) = STATE_ALERT ->
     current_state (self (cycles 1 w)) = STATE_ASSESSING \/
     current_state (self (cycles 1 w)) = STATE_IDLE) /\
  (current_state (self w) = STATE_ASSESSING ->
     active_goal (self w) <> None /\
     current_state (self (cycles 1 w)) = STATE_RESPONDING) /\
  (current_state (self w) = STATE_RESPONDING ->
     current_state (self (cycles 1 w)) = STATE_IDLE) /\
  (exists n, n <= 3 /\ current_state (self (cycles n w)) = STATE_IDLE) /\
  (forall fuel,
     3 <= fuel ->
     exists n,
       n <= 3 /\
       run_until_idle fuel w = Some (Ok tt, cycles n w) /\
       current_state (self (cycles n w)) = STATE_IDLE).
Proof.
  cbn zeta.
  pose proof (dispatch_ok_ops ops _ (dispatch_ok_init id clock)) as I.
  set (w := run_ops ops (RescueAgent_init id clock)) in *. clearbody w.
  intros NI.
  assert (R : forall w, dispatch_ok w ->
                current_state (self w) = STATE_RESPONDING ->
                current_state (self (cycles 1 w)) = STATE_IDLE).
  { intros v [_ A] S.
    destruct (active_goal (self v)) as [g|] eqn:G; [|now destruct A; auto].
    apply (cycle_from_responding v g S G). }
  assert (A : forall w, dispatch_ok w ->
                current_state (self w) = STATE_ASSESSING ->
                active_goal (self w) <> None /\
                current_state (self (cycles 1 w)) = STATE_RESPONDING).
  { intros v [_ A] S. split; [auto|].
    destruct (active_goal (self v)) as [g|] eqn:G; [|now destruct A; auto].
    apply (cycle_from_assessing v g S G). }
  assert (L : forall w, current_state (self w) = STATE_ALERT ->
                current_state (self (cycles 1 w)) = STATE_ASSESSING \/
                current_state (self (cycles 1 w)) = STATE_IDLE).
  { intros v S. destruct (goals (self v)) as [|g0 gs] eqn:G.
    - right. now apply cycle_from_alert_empty.
    - left. apply (cycle_from_alert v S). congruence. }
  assert (D : forall w, dispatch_ok w -> dispatch_ok (cycles 1 w)).
  { intros v. apply (dispatch_ok_op OpRunFsmCycle). }
  assert (T : forall w fuel,
            dispatch_ok w -> 3 <= fuel ->
            exists n,
              n <= 3 /\
              run_until_idle fuel w = Some (Ok tt, cycles n w) /\
              current_state (self (cycles n w)) = STATE_IDLE).
  { assert (T1 : forall w fuel,
              dispatch_ok w -> 1 <= fuel ->
              current_state (self w) = STATE_RESPONDING ->
              run_until_idle fuel w = Some (Ok tt, cycles 1 w) /\
              current_state (self (cycles 1 w)) = STATE_IDLE).
    { intros v [|fuel] Iv F S; [lia|]. split; [|now apply R].
      rewrite run_until_idle_step by (rewrite S; states).
      apply run_until_idle_done. now apply (R v). }
    assert (T2 : forall w fuel,
              dispatch_ok w -> 2 <= fuel ->
              current_state (self w) = STATE_ASSESSING ->
              run_until_idle fuel w = Some (Ok tt, cycles 2 w) /\
              current_state (self (cycles 2 w)) = STATE_IDLE).
    { intros v [|fuel] Iv F S; [lia|].
      rewrite run_until_idle_step by (rewrite S; states).
      rewrite cycles_S. apply T1; [now apply D | lia | now apply A]. }
    intros v fuel Iv F.
    destruct Iv as [[S|[S|[S|S]]] Av].
    - exists 0. split; [lia|]. split; [|exact S].
      now apply run_until_idle_done.
    - destruct (L v S) as [S1|S1].
      + exists 3. split; [lia|]. destruct fuel as [|fuel]; [lia|].
        rewrite run_until_idle_step by (rewrite S; states).
        rewrite cycles_S. apply T2; [|lia|exact S1].
        apply D. now split; [auto|].
      + exists 1. split; [lia|]. destruct fuel as [|fuel]; [lia|].
        rewrite run_until_idle_step by (rewrite S; states).
        split; [|exact S1]. now apply run_until_idle_done.
    - exists 2. split; [lia|]. apply T2; [split; auto | lia | exact S].
    - exists 1. split; [lia|]. apply T1; [split; auto | lia | exact S]. }
  split; [|split; [|split; [|split; [|split]]]].
  - destruct I as [[S|S] _]; [contradiction | exact S].
  - apply L.
  - now apply A.
  - now apply R.
  - destruct (T w 3 I (le_n 3)) as (n & Hn & _ & S). now exists n.
  - intros fuel F. now apply T.
Qed.

(** After one alert the fresh agent is not Idle. *)
Lemma idle_within_three_cycles_witness :
  let w := run_ops [OpReceiveAlert (Some fire_alert)]
                   (RescueAgent_init "RescueAgent-01" sample_clock) in
  current_state (self w) <> STATE_IDLE /\
  exists n, n <= 3 /\ current_state (self (cycles n w)) = STATE_IDLE.
Proof.
  cbn zeta.
  assert (H : current_state
                (self (run_ops [OpReceiveAlert (Some fire_alert)]
                         (RescueAgent_init "RescueAgent-01" sample_clock)))
              <> STATE_IDLE)
    by (vm_compute; discriminate).
  split; [exact H|].
  destruct (idle_within_three_cycles "RescueAgent-01" sample_clock
              [OpReceiveAlert (Some fire_alert)] H)
    as (_ & _ & _ & _ & E & _).
  exact E.
Defined.

(** * Further properties of the agent *)

(** ** The execution log mirrors the output *)

Lemma mirrored_refl (w : World) : mirrored w w.
Proof. exists []. now rewrite !app_nil_r. Qed.

Lemma mirrored_trans (w1 w2 w3 : World) :
  mirrored w1 w2 -> mirrored w2 w3 -> mirrored w1 w3.
Proof.
  intros (l1 & E1 & O1) (l2 & E2 & O2). exists (l1 ++ l2)%list.
  now rewrite E2, O2, E1, O1, !app_assoc.
Qed.

Lemma mirrored_frame (w w' : World) :
  execution_log (self w') = execution_log (self w) ->
  stdout w' = stdout w ->
  mirrored w w'.
Proof. intros E O. exists []. now rewrite E, O, !app_nil_r. Qed.

Lemma mirrored_log_world (m : string) (w : World) :
  mirrored w (log_world m w).
Proof. now eexists. Qed.

Lemma mirrored_log_all (ms : list string) (w : World) :
  mirrored w (log_all ms w).
Proof.
  revert w. induction ms as [|m ms IH]; intros w; [apply mirrored_refl|].
  cbn [log_all fold_left]. eapply mirrored_trans; [apply mirrored_log_world|].
  apply IH.
Qed.

Lemma mirrored_transition_to (new_state reason : string) (w : World) :
  mirrored w (exec (transition_to new_state reason) w).
Proof.
  rewrite exec_transition_to. destruct (str_in _ _).
  - unfold commit_world.
    eapply mirrored_trans; [|apply mirrored_log_world].
    now apply mirrored_frame.
  - apply mirrored_log_world.
Qed.

Lemma mirrored_op (o : Op) (w : World) : mirrored w (exec (run_op o) w).
Proof.
  assert (A : mirrored w (exec assess_situation w)).
  { unfold exec. destruct (goals (self w)) as [|g0 gs] eqn:G.
    - rewrite (assess_situation_empty w G). apply mirrored_transition_to.
    - destruct (assess_situation_select w) as (top & rest & _ & ->);
        [congruence|]. cbn [snd].
      eapply mirrored_trans; [|apply mirrored_transition_to].
      unfold select_world.
      eapply mirrored_trans; [|apply mirrored_log_world].
      now apply mirrored_frame. }
  assert (E : mirrored w (exec execute_response w)).
  { unfold exec. destruct (active_goal (self w)) as [g|] eqn:G.
    - rewrite (execute_response_some g w G). cbn [snd].
      eapply mirrored_trans; [apply mirrored_transition_to|].
      apply mirrored_log_all.
    - rewrite (execute_response_none w G). apply mirrored_refl. }
  assert (C : mirrored w (exec complete_mission w)).
  { unfold exec. destruct (active_goal (self w)) as [g|] eqn:G.
    - rewrite (complete_mission_some g w G). cbn [snd].
      eapply mirrored_trans; [|apply mirrored_transition_to].
      eapply mirrored_trans; [|now apply mirrored_frame].
      eapply mirrored_trans; [|apply mirrored_transition_to].
      unfold finish_world.
      eapply mirrored_trans; [|apply mirrored_log_world].
      now apply mirrored_frame.
    - rewrite (complete_mission_none w G). apply mirrored_refl. }
  destruct o as [[event|]| | | |]; cbn [run_op]; auto.
  - unfold exec. rewrite receive_alert_some. cbn [snd].
    assert (Q : mirrored w (enqueue_world event w)).
    { unfold enqueue_world.
      eapply mirrored_trans; [|apply mirrored_log_world].
      now apply mirrored_frame. }
    destruct (String.eqb _ _); [|exact Q].
    eapply mirrored_trans; [exact Q | apply mirrored_transition_to].
  - apply mirrored_refl.
  - unfold exec in *. rewrite run_fsm_cycle_dispatch.
    repeat (destruct (String.eqb _ _); [assumption || apply mirrored_refl|]).
    apply mirrored_refl.
Qed.

Lemma mirrored_ops (ops : list Op) (w : World) : mirrored w (run_ops ops w).
Proof.
  revert w. induction ops as [|o ops IH]; intros w; [apply mirrored_refl|].
  cbn [run_ops fold_left]. eapply mirrored_trans; [apply mirrored_op|].
  apply IH.
Qed.

(** X1. Whatever operations are called, every line added to
    [execution_log] is printed and nothing else is printed: the lines
    appended to the log and to the output are the same, in the same order.
    For an agent built in a world with nothing printed yet, the log and the
    output are equal at all times. *)
Theorem execution_log_mirrors_output :
  (forall ops w,
     exists lines,
       execution_log (self (run_ops ops w)) =
         (execution_log (self w) ++ lines)%list /\
       stdout (run_ops ops w) = (stdout w ++ lines)%list) /\
  (forall id clock ops,
     let w := run_ops ops (RescueAgent_init id clock) in
     execution_log (self w) = stdout w).
Proof.
  split.
  - intros ops w. apply mirrored_ops.
  - intros id clock ops. cbn zeta.
    destruct (mirrored_ops ops (RescueAgent_init id clock)) as (l & -> & ->).
    reflexivity.
Qed.

(** ** The guard of [pop(0)] *)

(** X2. [goals.pop(0)] raises [IndexError] on an empty queue, and
    [assess_situation] never lets that happen: in any world, reachable or
    not, it returns normally, taking the branch without [pop] when the queue
    is empty, and otherwise finding the sorted queue non-empty, so that the
    [pop] yields a goal.  For events that carry all their keys, with enum
    members for kind and severity, that is the only raising step in the
    methods of the agent, and none of them raises. *)
Theorem pop_is_guarded :
  (forall w,
     goals (self w) = [] ->
     outcome goals_pop0 w = Raise "IndexError: pop from empty list") /\
  (forall w,
     goals (self w) = [] ->
     assess_situation w =
       (Ok tt, exec (transition_to STATE_IDLE "No pending goals") w)) /\
  (forall w,
     goals (self w) <> [] ->
     outcome assess_situation w = Ok tt /\
     exists top rest,
       sort_desc priority (goals (self w)) = top :: rest /\
       goals (self (exec assess_situation w)) = rest /\
       length (goals (self w)) = S (length rest)) /\
  (forall o w, outcome (run_op o) w = Ok tt).
Proof.
  split; [|split; [|split]].
  - intros w G. unfold outcome, goals_pop0. mrun. now rewrite G.
  - exact assess_situation_empty.
  - intros w G.
    destruct (assess_situation_select w G) as (top & rest & E & R).
    unfold outcome, exec. rewrite R. cbn [fst snd].
    split; [reflexivity|]. exists top, rest. split; [exact E|]. fsm.
    split; [reflexivity|].
    rewrite (Permutation_length (sort_desc_perm priority (goals (self w)))).
    now rewrite E.
  - exact run_op_returns.
Qed.

(** The alerted agent has one goal queued; once it is taken the queue is
    empty and a [pop] would raise. *)
Lemma pop_is_guarded_witness :
  (goals (self alerted_agent) <> [] /\
   outcome assess_situation alerted_agent = Ok tt) /\
  (goals (self assessing_agent) = [] /\
   outcome goals_pop0 assessing_agent
     = Raise "IndexError: pop from empty list" /\
   outcome assess_situation assessing_agent = Ok tt).
Proof.
  assert (N : goals (self alerted_agent) <> [])
    by (vm_compute; discriminate).
  assert (E : goals (self assessing_agent) = []) by reflexivity.
  destruct pop_is_guarded as (P & _ & A & O).
  split; [split; [exact N | exact (proj1 (A _ N))]|].
  split; [exact E|]. split; [exact (P _ E)|].
  exact (O OpAssess assessing_agent).
Defined.

(** ** Methods called outside the state the dispatcher calls them in *)

Lemma in_STATES (s : string) :
  In s STATES ->
  s = STATE_IDLE \/ s = STATE_ALERT \/ s = STATE_ASSESSING \/
  s = STATE_RESPONDING \/ s = STATE_COMPLETING.
Proof. cbn. intuition auto. Qed.

(** X3. [complete_mission] is not guarded by the state.  With an active
    goal it always counts one more mission, clears the active goal and
    leaves the queue alone; from any of the five states the agent ends Idle.
    From Responding the history gains the Completing and Idle entries; from
    AlertReceived, Assessing or Completing the move to Completing is
    rejected and only the Idle entry is added; from Idle both moves are
    rejected and the history is unchanged. *)
Theorem complete_mission_any_state (w : World) (g : RescueGoal) :
  active_goal (self w) = Some g ->
  let w' := exec complete_mission w in
  completed_missions (self w') = completed_missions (self w) + 1 /\
  active_goal (self w') = None /\
  goals (self w') = goals (self w) /\
  (In (current_state (self w)) STATES ->
     current_state (self w') = STATE_IDLE /\
     exists added,
       state_history (self w') = (state_history (self w) ++ added)%list /\
       map entry_state added =
         if String.eqb (current_state (self w)) STATE_RESPONDING
         then [STATE_COMPLETING; STATE_IDLE]
         else if String.eqb (current_state (self w)) STATE_IDLE then []
         else [STATE_IDLE]).
Proof.
  intros G. cbn zeta. unfold exec. rewrite (complete_mission_some g w G).
  cbn [snd]. fsm. repeat split; auto.
  - apply in_STATES in H.
    destruct H as [S|[S|[S|[S|S]]]]; rewrite S; now table.
  - apply in_STATES in H.
    destruct H as [S|[S|[S|[S|S]]]]; rewrite S; table; cbn [String.eqb
      Ascii.eqb Bool.eqb STATE_IDLE STATE_ALERT STATE_ASSESSING
      STATE_RESPONDING STATE_COMPLETING];
      first [ now (exists []; rewrite app_nil_r)
            | now (rewrite <- app_assoc; eexists; split; [reflexivity|])
            | now (eexists; split; [reflexivity|]) ].
Qed.

(** Completion called on the agent that is still Assessing. *)
Lemma complete_mission_any_state_witness :
  exists g,
    active_goal (self assessing_agent) = Some g /\
    completed_missions (self (exec complete_mission assessing_agent)) =
      completed_missions (self assessing_agent) + 1.
Proof.
  eexists.
  assert (H : active_goal (self assessing_agent) = Some _)
    by (vm_compute; reflexivity).
  split; [exact H|].
  exact (proj1 (complete_mission_any_state assessing_agent _ H)).
Defined.

(** Go through the edges of the table that a hypothesis allows. *)
Ltac edge_cases E :=
  apply edge_table in E;
  repeat (destruct E as [E|E];
          [inversion E; subst;
           unfold STATE_IDLE, STATE_ALERT, STATE_ASSESSING, STATE_RESPONDING,
                  STATE_COMPLETING in *;
           try congruence|]);
  try (now destruct E).

Lemma assessing_only_from_alert (s : string) :
  s <> STATE_ALERT -> str_in STATE_ASSESSING (allowed_targets s) = false.
Proof.
  intros N. destruct (str_in _ _) eqn:E; [|reflexivity].
  apply str_in_In in E. edge_cases E.
Qed.

(** X4. The selection made by [assess_situation] is not guarded by the
    state either.  On a non-empty queue in any state other than
    AlertReceived, the move to Assessing is rejected, so the state and the
    history stay as they are and no mission is counted; yet the selection is
    made as in AlertReceived: the earliest queued goal of greatest priority
    leaves the queue and becomes the active goal, with status ACTIVE and its
    other fields as they were, replacing whatever goal was active, and the
    goals left keep, priority by priority, the order they had. *)
Theorem assess_outside_alert_still_selects (w : World) :
  goals (self w) <> [] ->
  current_state (self w) <> STATE_ALERT ->
  let w' := exec assess_situation w in
  current_state (self w') = current_state (self w) /\
  state_history (self w') = state_history (self w) /\
  completed_missions (self w') = completed_missions (self w) /\
  exists top before after,
    goals (self w) = (before ++ top :: after)%list /\
    Forall (fun x => (priority x < priority top)%Z) before /\
    Forall (fun x => (priority x <= priority top)%Z) after /\
    active_goal (self w') =
      Some (mkGoal (goal_type top) (priority top) (target_zone top)
                   (disaster_event top) "ACTIVE" (created_at top)) /\
    Permutation (goals (self w')) (before ++ after) /\
    desc_sorted priority (goals (self w')) /\
    (forall p,
       filter (fun x => (priority x =? p)%Z) (goals (self w')) =
       filter (fun x => (priority x =? p)%Z) (before ++ after)) /\
    In top (goals (self w)) /\
    Permutation (top :: goals (self w')) (goals (self w)).
Proof.
  intros G N. cbn zeta. unfold exec.
  destruct (assess_situation_select w G) as (top & rest & E & ->).
  cbn [snd]. fsm. rewrite (assessing_only_from_alert _ N).
  split; [reflexivity|]. split; [reflexivity|]. split; [reflexivity|].
  pose proof (sort_desc_perm priority (goals (self w))) as P.
  rewrite E in P.
  destruct (sort_desc_head priority _ _ _ E) as (l1 & l2 & L & H1 & H2 & R).
  exists top, l1, l2.
  split; [exact L|]. split; [exact H1|]. split; [exact H2|].
  split; [reflexivity|].
  split; [rewrite R; symmetry; apply sort_desc_perm|].
  split; [rewrite R; apply sort_desc_sorted|].
  split; [intros p; rewrite R; apply sort_desc_stable|].
  split.
  - eapply Permutation_in; [symmetry; exact P | now left].
  - now symmetry.
Qed.

(** Two more alerts, of High and then Critical severity, assessed while the
    agent is already Responding: the Critical one, queued last, is taken. *)
Lemma assess_outside_alert_still_selects_witness :
  let w := receive_all
             [sample_event "Zone-A" DisasterType.FLOOD SeverityLevel.HIGH;
              fire_alert]
             responding_agent in
  goals (self w) <> [] /\
  current_state (self w) <> STATE_ALERT /\
  current_state (self (exec assess_situation w)) = current_state (self w) /\
  active_target (exec assess_situation w) = Some ("Zone-B", 4%Z).
Proof.
  cbn zeta.
  assert (G : goals (self (receive_all
                [sample_event "Zone-A" DisasterType.FLOOD SeverityLevel.HIGH;
                 fire_alert] responding_agent)) <> [])
    by (vm_compute; discriminate).
  assert (N : current_state (self (receive_all
                [sample_event "Zone-A" DisasterType.FLOOD SeverityLevel.HIGH;
                 fire_alert] responding_agent)) <> STATE_ALERT)
    by (vm_compute; discriminate).
  split; [exact G|]. split; [exact N|].
  split; [exact (proj1 (assess_outside_alert_still_selects _ G N))|].
  vm_compute. reflexivity.
Defined.

Lemma responding_only_from_assessing (s : string) :
  str_in STATE_RESPONDING (allowed_targets s) = String.eqb s STATE_ASSESSING.
Proof.
  destruct (String.eqb_spec s STATE_ASSESSING) as [->|N]; [reflexivity|].
  destruct (str_in _ _) eqn:E; [|reflexivity].
  apply str_in_In in E. edge_cases E.
Qed.

(** X5. [execute_response] never touches the queue, the active goal or the
    mission counter.  It changes the state only when called in Assessing
    with an active goal, where the agent moves to Responding through one
    recorded transition; in every other case the state and the history are
    unchanged. *)
Theorem execute_response_effect (w : World) :
  let w' := exec execute_response w in
  goals (self w') = goals (self w) /\
  active_goal (self w') = active_goal (self w) /\
  completed_missions (self w') = completed_missions (self w) /\
  (current_state (self w) = STATE_ASSESSING ->
   active_goal (self w) <> None ->
     current_state (self w') = STATE_RESPONDING /\
     exists ts reason,
       state_history (self w') =
         (state_history (self w) ++ [(STATE_RESPONDING, ts, reason)])%list) /\
  (current_state (self w) <> STATE_ASSESSING \/ active_goal (self w) = None ->
     current_state (self w') = current_state (self w) /\
     state_history (self w') = state_history (self w)).
Proof.
  cbn zeta. unfold exec. destruct (active_goal (self w)) as [g|] eqn:G.
  - rewrite (execute_response_some g w G). cbn [snd]. fsm.
    rewrite responding_only_from_assessing.
    repeat split; auto.
    + now rewrite H.
    + rewrite H. now eexists _, _.
    + destruct H as [H|H]; [|discriminate].
      now apply String.eqb_neq in H as ->.
    + destruct H as [H|H]; [|discriminate].
      now apply String.eqb_neq in H as ->.
  - rewrite (execute_response_none w G). cbn [snd].
    repeat split; auto; intros; congruence.
Qed.

(** The response called on the alerted agent, which has no active goal. *)
Lemma execute_response_effect_witness :
  (current_state (self alerted_agent) <> STATE_ASSESSING \/
   active_goal (self alerted_agent) = None) /\
  current_state (self (exec execute_response alerted_agent)) =
    current_state (self alerted_agent).
Proof.
  assert (H : current_state (self alerted_agent) <> STATE_ASSESSING \/
              active_goal (self alerted_agent) = None)
    by (right; reflexivity).
  split; [exact H|].
  destruct (execute_response_effect alerted_agent) as (_ & _ & _ & _ & U).
  exact (proj1 (U H)).
Defined.

(** ** The table *)

(** X6. The table has no edge from a state to itself and none out of a
    state that is not one of the five, and Completing is entered from
    Responding only.  So asking for a transition to the current state is
    always rejected, and an agent whose state is not one of the five is
    stuck: every transition request is rejected. *)
Theorem table_has_no_self_loop :
  (forall s, ~ edge s s) /\
  (forall s, ~ In s STATES -> allowed_targets s = []) /\
  (forall s, edge s STATE_COMPLETING -> s = STATE_RESPONDING) /\
  (forall w reason,
     let w' := exec (transition_to (current_state (self w)) reason) w in
     outcome (transition_to (current_state (self w)) reason) w = Ok false /\
     current_state (self w') = current_state (self w) /\
     state_history (self w') = state_history (self w)) /\
  (forall w target reason,
     ~ In (current_state (self w)) STATES ->
     let w' := exec (transition_to target reason) w in
     outcome (transition_to target reason) w = Ok false /\
     current_state (self w') = current_state (self w) /\
     state_history (self w') = state_history (self w)).
Proof.
  assert (L : forall s, ~ edge s s).
  { intros s E. edge_cases E. }
  assert (U : forall s, ~ In s STATES -> allowed_targets s = []).
  { intros s N. unfold allowed_targets, VALID_TRANSITIONS. cbn [dict_get].
    repeat match goal with
           | |- context [String.eqb ?a s] =>
               destruct (String.eqb_spec a s) as [<-|_];
               [exfalso; apply N; cbn; auto 10|]
           end.
    reflexivity. }
  assert (R : forall w target reason,
            ~ In target (allowed_targets (current_state (self w))) ->
            outcome (transition_to target reason) w = Ok false /\
            current_state (self (exec (transition_to target reason) w))
              = current_state (self w) /\
            state_history (self (exec (transition_to target reason) w))
              = state_history (self w)).
  { intros w target reason N. unfold outcome.
    rewrite transition_to_run, transition_to_state, transition_to_history.
    cbn [fst].
    destruct (str_in _ _) eqn:E; [|now repeat split].
    apply str_in_In in E. contradiction. }
  split; [exact L|]. split; [exact U|]. split; [|split].
  - intros s E. edge_cases E.
  - intros w reason. apply R, L.
  - intros w target reason N. apply R. now rewrite (U _ N).
Qed.

(** ** Escalation *)

(** X7. Escalation only ever adds actions: for one disaster kind, the
    response at a severity is an initial part of the response at any higher
    severity.  A response has at least one and at most six actions, and at
    least three for every kind other than [NONE]. *)
Theorem escalation_is_monotone :
  (forall d s1 s2,
     (SeverityLevel.value s1 <= SeverityLevel.value s2)%Z ->
     exists more,
       _get_response_actions d s2 =
         (_get_response_actions d s1 ++ more)%list) /\
  (forall d s,
     1 <= length (_get_response_actions d s) <= 6 /\
     (d <> DisasterType.NONE -> 3 <= length (_get_response_actions d s))).
Proof.
  split.
  - intros d s1 s2 H.
    destruct d, s1, s2; cbn in H; try lia;
      cbn; eexists; rewrite ?app_nil_r; reflexivity || (cbn; reflexivity).
  - intros d s. destruct d, s; cbn; repeat split; try lia; congruence.
Qed.

(** A fire going from Moderate to Critical. *)
Lemma escalation_is_monotone_witness :
  (SeverityLevel.value SeverityLevel.MODERATE
   <= SeverityLevel.value SeverityLevel.CRITICAL)%Z /\
  exists more,
    _get_response_actions DisasterType.FIRE SeverityLevel.CRITICAL =
      (_get_response_actions DisasterType.FIRE SeverityLevel.MODERATE
       ++ more)%list.
Proof.
  assert (H : (SeverityLevel.value SeverityLevel.MODERATE
               <= SeverityLevel.value SeverityLevel.CRITICAL)%Z)
    by (cbn; lia).
  split; [exact H|].
  exact (proj1 escalation_is_monotone DisasterType.FIRE _ _ H).
Defined.

(** A state that is not in the table. *)
Lemma table_has_no_self_loop_witness :
  ~ In "PAUSED" STATES /\ allowed_targets "PAUSED" = [].
Proof.
  assert (N : ~ In "PAUSED" STATES)
    by (vm_compute; intuition discriminate).
  split; [exact N|].
  destruct table_has_no_self_loop as (_ & U & _).
  exact (U _ N).
Defined.

(** ** Goals and their events *)

Lemma execute_response_frame (w : World) :
  goals (self (exec execute_response w)) = goals (self w) /\
  active_goal (self (exec execute_response w)) = active_goal (self w).
Proof.
  unfold exec. destruct (active_goal (self w)) as [g|] eqn:G.
  - rewrite (execute_response_some g w G). cbn [snd]. fsm. now split.
  - rewrite (execute_response_none w G). now split.
Qed.

Lemma goal_of_event_set_status (s : string) (g : RescueGoal) :
  goal_of_event g -> goal_of_event (set_status s g).
Proof. now intros H. Qed.

Lemma goals_ok_frame (w w' : World) :
  goals (self w') = goals (self w) ->
  active_goal (self w') = active_goal (self w) ->
  goals_ok w -> goals_ok w'.
Proof. unfold goals_ok. now intros -> ->. Qed.

Lemma goals_ok_transition_to (new_state reason : string) (w : World) :
  goals_ok w -> goals_ok (exec (transition_to new_state reason) w).
Proof. apply goals_ok_frame; now fsm. Qed.

Lemma goals_ok_op (o : Op) (w : World) :
  goals_ok w -> goals_ok (exec (run_op o) w).
Proof.
  assert (A : goals_ok w -> goals_ok (exec assess_situation w)).
  { intros I. unfold exec. destruct (goals (self w)) as [|g0 gs] eqn:G.
    - rewrite (assess_situation_empty w G). now apply goals_ok_transition_to.
    - destruct (assess_situation_select w) as (top & rest & E & ->);
        [congruence|]. cbn [snd]. apply goals_ok_transition_to.
      destruct I as [Q _].
      assert (P : Forall (fun g => status g = "PENDING" /\ goal_of_event g)
                         (top :: rest)).
      { rewrite <- E. eapply Permutation_Forall; [apply sort_desc_perm|].
        exact Q. }
      apply Forall_cons_iff in P. destruct P as [[_ T] R].
      split; [exact R|].
      intros g H. cbn in H. injection H as <-.
      split; [reflexivity | now apply goal_of_event_set_status]. }
  assert (E : goals_ok w -> goals_ok (exec execute_response w)).
  { apply goals_ok_frame; apply execute_response_frame. }
  assert (C : goals_ok w -> goals_ok (exec complete_mission w)).
  { intros I. unfold exec. destruct (active_goal (self w)) as [g|] eqn:G.
    - rewrite (complete_mission_some g w G). cbn [snd].
      apply goals_ok_transition_to. destruct I as [Q _].
      split; [now fsm|]. intros g' H. discriminate H.
    - now rewrite (complete_mission_none w G). }
  intros I. destruct o as [[event|]| | | |]; cbn [run_op]; auto.
  - unfold exec. rewrite receive_alert_some. cbn [snd].
    assert (Q : goals_ok (enqueue_world event w)).
    { destruct I as [Q Act]. split; [|exact Act].
      cbn. apply Forall_app. split; [exact Q|].
      constructor; [|constructor]. now repeat split. }
    destruct (String.eqb _ _); [|exact Q].
    now apply goals_ok_transition_to.
  - unfold exec in *. rewrite run_fsm_cycle_dispatch.
    repeat (destruct (String.eqb _ _); [now auto|]). exact I.
Qed.

Lemma goals_ok_ops (ops : list Op) (w : World) :
  goals_ok w -> goals_ok (run_ops ops w).
Proof.
  revert w. induction ops as [|o ops IH]; intros w I; [exact I|].
  cbn [run_ops fold_left]. apply IH. now apply goals_ok_op.
Qed.

Lemma goal_of_event_priority (g : RescueGoal) :
  goal_of_event g -> (0 <= priority g <= 4)%Z.
Proof.
  intros (_ & -> & _). destruct (severity (disaster_event g)); cbn; lia.
Qed.

(** X8. After any sequence of operations on a fresh agent, every queued
    goal is PENDING and the active goal, if any, is ACTIVE; each of them
    still has the kind looked up from the disaster kind of its event, the
    severity ordinal of its event as priority (so between 0 and 4) and the
    zone of its event as target. *)
Theorem goals_agree_with_their_events (id : string) (clock : nat -> string)
  (ops : list Op) :
  let w := run_ops ops (RescueAgent_init id clock) in
  Forall (fun g => status g = "PENDING" /\ goal_of_event g /\
                   (0 <= priority g <= 4)%Z)
         (goals (self w)) /\
  (forall g, active_goal (self w) = Some g ->
             status g = "ACTIVE" /\ goal_of_event g /\
             (0 <= priority g <= 4)%Z).
Proof.
  cbn zeta.
  assert (I : goals_ok (RescueAgent_init id clock)).
  { split; [constructor | intros g H; discriminate H]. }
  apply (goals_ok_ops ops) in I. destruct I as [Q A]. split.
  - eapply Forall_impl; [|exact Q]. cbn. intros g [S G].
    split; [exact S | split; [exact G | now apply goal_of_event_priority]].
  - intros g H. destruct (A g H) as [S G].
    split; [exact S | split; [exact G | now apply goal_of_event_priority]].
Qed.

(** One alert, then its assessment. *)
Lemma goals_agree_with_their_events_witness :
  let w := run_ops [OpReceiveAlert (Some fire_alert); OpAssess]
                   (RescueAgent_init "RescueAgent-01" sample_clock) in
  exists g, active_goal (self w) = Some g /\ status g = "ACTIVE".
Proof.
  cbn zeta. eexists.
  assert (H : active_goal
                (self (run_ops [OpReceiveAlert (Some fire_alert); OpAssess]
                         (RescueAgent_init "RescueAgent-01" sample_clock)))
              = Some _)
    by (vm_compute; reflexivity).
  split; [exact H|].
  destruct (goals_agree_with_their_events "RescueAgent-01" sample_clock
              [OpReceiveAlert (Some fire_alert); OpAssess]) as [_ A].
  exact (proj1 (A _ H)).
Defined.

(** ** The driver loses no goal *)

Lemma driver_step (o : Op) (w : World) :
  driver_op o = true ->
  driver_ok w ->
  let w' := exec (run_op o) w in
  driver_ok w' /\
  length (goals (self w')) + active_count w' + completed_missions (self w')
  = detected (delivered [o])
    + (length (goals (self w)) + active_count w
       + completed_missions (self w)).
Proof.
  intros D I. cbn zeta. destruct o as [[event|]| | | |]; try discriminate D;
    cbn [run_op].
  - (* an event is delivered *)
    unfold exec. rewrite receive_alert_some. cbn [snd].
    assert (N : forall l : list RescueGoal, forall g, (l ++ [g])%list <> [])
      by (intros [|? ?] ? ?; discriminate).
    destruct I as [[S A]|[[S [A G]]|[[S A]|[S A]]]]; rewrite S;
      cbn [String.eqb Ascii.eqb Bool.eqb STATE_IDLE STATE_ALERT
           STATE_ASSESSING STATE_RESPONDING];
      unfold driver_ok, active_count; fsm; rewrite ?S; table;
      rewrite length_app; cbn [length detected delivered flat_map filter app];
      (split; [|lia]).
    + right; left. repeat split; auto.
    + right; left. repeat split; auto.
    + right; right; left. now split.
    + right; right; right. now split.
  - (* nothing was found by the scan *)
    split; [exact I | reflexivity].
  - (* one dispatcher step *)
    cbn [detected delivered flat_map filter app length Nat.add].
    destruct I as [[S A]|[[S [A G]]|[[S A]|[S A]]]].
    + unfold exec. rewrite (cycle_from_idle w S). cbn [snd].
      split; [left; now split | reflexivity].
    + destruct (cycle_from_alert w S G) as (S' & (g & A') & L & C & _).
      unfold active_count. rewrite A', A, C, <- L. split; [|lia].
      right; right; left. split; [exact S' | congruence].
    + destruct (active_goal (self w)) as [g|] eqn:Ag; [|contradiction].
      destruct (cycle_from_assessing w g S Ag) as (S' & A' & G' & C & _).
      unfold active_count. rewrite A', Ag, G', C. split; [|lia].
      right; right; right. split; [exact S' | congruence].
    + destruct (active_goal (self w)) as [g|] eqn:Ag; [|contradiction].
      destruct (cycle_from_responding w g S Ag) as (S' & A' & G' & C & _).
      unfold active_count. rewrite A', Ag, G', C. split; [|lia].
      left. now split.
Qed.

Lemma detected_app (l1 l2 : list (option DisasterEvent)) :
  detected (l1 ++ l2) = detected l1 + detected l2.
Proof. unfold detected. now rewrite filter_app, length_app. Qed.

Lemma driver_steps (ops : list Op) (w : World) :
  forallb driver_op ops = true ->
  driver_ok w ->
  driver_ok (run_ops ops w) /\
  length (goals (self (run_ops ops w))) + active_count (run_ops ops w)
  + completed_missions (self (run_ops ops w))
  = detected (delivered ops)
    + (length (goals (self w)) + active_count w
       + completed_missions (self w)).
Proof.
  revert w. induction ops as [|o ops IH]; intros w D I.
  - split; [exact I | reflexivity].
  - cbn [forallb] in D. apply andb_prop in D. destruct D as [Do D].
    destruct (driver_step o w Do I) as [I1 E1].
    destruct (IH _ D I1) as [I2 E2].
    cbn [run_ops fold_left]. fold (run_ops ops (exec (run_op o) w)).
    split; [exact I2|]. rewrite E2, E1.
    change (o :: ops) with ([o] ++ ops)%list.
    unfold delivered at 3. rewrite flat_map_app.
    fold (delivered [o]). fold (delivered ops). rewrite detected_app. lia.
Qed.

(** X9. Under the driver, which only delivers scan results and steps the
    dispatcher, no goal is ever lost: the number of events delivered so far
    equals the number of queued goals, plus one if a goal is active, plus
    the missions completed.  Between calls a goal is active exactly in
    Assessing and Responding, the agent is never seen in Completing, and the
    queue is never empty in AlertReceived. *)
Theorem driver_loses_no_goal (id : string) (clock : nat -> string)
  (ops : list Op) :
  forallb driver_op ops = true ->
  let w := run_ops ops (RescueAgent_init id clock) in
  detected (delivered ops)
  = length (goals (self w)) + active_count w + completed_missions (self w) /\
  (active_goal (self w) <> None <->
   current_state (self w) = STATE_ASSESSING \/
   current_state (self w) = STATE_RESPONDING) /\
  current_state (self w) <> STATE_COMPLETING /\
  (current_state (self w) = STATE_ALERT -> goals (self w) <> []).
Proof.
  intros D. cbn zeta.
  assert (I : driver_ok (RescueAgent_init id clock)) by (left; now split).
  destruct (driver_steps ops _ D I) as [I' E].
  split; [rewrite E; cbn; lia|].
  destruct I' as [[S A]|[[S [A G]]|[[S A]|[S A]]]]; rewrite S, ?A;
    (split; [|split]); try (intros _; exact G); try states;
    split; intros; try congruence; states.
Qed.

(** Two alerts in a row and one dispatcher step. *)
Lemma driver_loses_no_goal_witness :
  let ops := [OpReceiveAlert (Some fire_alert);
              OpReceiveAlert (Some fire_alert); OpRunFsmCycle] in
  let w := run_ops ops (RescueAgent_init "RescueAgent-01" sample_clock) in
  forallb driver_op ops = true /\
  detected (delivered ops)
  = length (goals (self w)) + active_count w + completed_missions (self w).
Proof.
  cbn zeta.
  assert (D : forallb driver_op
                [OpReceiveAlert (Some fire_alert);
                 OpReceiveAlert (Some fire_alert); OpRunFsmCycle] = true)
    by reflexivity.
  split; [exact D|].
  exact (proj1 (driver_loses_no_goal "RescueAgent-01" sample_clock _ D)).
Defined.

(** ** The simulation loop with scans that find nothing *)

Lemma simulation_from_idle (fuel : nat)
  (events : list (option DisasterEvent)) (w : World) :
  3 <= fuel ->
  current_state (self w) = STATE_IDLE ->
  active_goal (self w) = None ->
  exists w',
    run_simulation fuel events w = Some (Ok tt, w') /\
    current_state (self w') = STATE_IDLE /\
    active_goal (self w') = None /\
    completed_missions (self w') =
      completed_missions (self w) + detected events /\
    length (goals (self w')) = length (goals (self w)) /\
    length (state_history (self w')) =
      length (state_history (self w)) + 5 * detected events.
Proof.
  intros F. revert w.
  induction events as [|[event|] events IH]; intros w S A.
  - exists w. cbn. repeat split; auto; lia.
  - destruct (mission_cycle w event fuel S F)
      as (w1 & R & _ & S1 & A1 & C1 & G1 & (t1 & r1 & t2 & r2 & t3 & r3 & t4
          & t5 & H1)).
    destruct (IH w1 S1 A1) as (w' & R' & S' & A' & C' & G' & H').
    exists w'. cbn [run_simulation].
    pose proof (run_op_returns (OpReceiveAlert (Some event)) w) as O.
    unfold outcome, exec in *. cbn [run_op] in O.
    destruct (receive_alert (Some event) w) as [r w0]. cbn [fst snd] in *.
    subst r. rewrite R, R'.
    change (detected (Some event :: events))
      with (Datatypes.S (detected events)).
    repeat split; auto.
    + rewrite C', C1. lia.
    + congruence.
    + rewrite H', H1, length_app. cbn [length]. lia.
  - destruct (IH w S A) as (w' & R' & S' & A' & C' & G' & H').
    exists w'. cbn [run_simulation]. rewrite receive_alert_none.
    rewrite (run_until_idle_done fuel w S), R'.
    change (detected (None :: events)) with (detected events).
    now repeat split.
Qed.

(** X10. The simulation loop, fed any list of scan results (events or
    nothing) with a budget of at least three dispatcher steps per scan, runs
    to the end without raising.  The agent is then Idle with an empty queue
    and no active goal, [completed_missions] is the number of scans that
    found an event, and the history has one entry plus five per mission. *)
Theorem simulation_totals (id : string) (clock : nat -> string)
  (events : list (option DisasterEvent)) (fuel : nat) :
  3 <= fuel ->
  exists w',
    run_simulation fuel events (RescueAgent_init id clock)
      = Some (Ok tt, w') /\
    current_state (self w') = STATE_IDLE /\
    goals (self w') = [] /\
    active_goal (self w') = None /\
    completed_missions (self w') = detected events /\
    length (state_history (self w')) = 1 + 5 * completed_missions (self w').
Proof.
  intros F.
  destruct (simulation_from_idle fuel events (RescueAgent_init id clock) F
              eq_refl eq_refl) as (w' & R & S & A & C & G & H).
  exists w'. cbn in C, G, H. repeat split; auto.
  - now apply length_zero_iff_nil.
  - rewrite H, C. reflexivity.
Qed.

(** Three scans, the second of which finds nothing. *)
Lemma simulation_totals_witness :
  3 <= 3 /\
  exists w',
    run_simulation 3 [Some fire_alert; None; Some fire_alert] fresh_agent
      = Some (Ok tt, w') /\
    completed_missions (self w') = 2.
Proof.
  assert (F : 3 <= 3) by lia.
  split; [exact F|].
  destruct (simulation_totals "RescueAgent-01" sample_clock
              [Some fire_alert; None; Some fire_alert] 3 F)
    as (w' & R & _ & _ & _ & C & _).
  exists w'. split; [exact R | exact C].
Defined.

(** * The environment and the sensor *)

(** ** Dicts and choices *)

Lemma choice_in {A : Type} (seq : list A) (draw : nat) (x : A) :
  choice seq draw = Some x -> In x seq.
Proof.
  unfold choice. destruct seq as [|a seq]; [discriminate|].
  apply nth_error_In.
Qed.

Lemma choice_some {A : Type} (seq : list A) (draw : nat) :
  seq <> [] -> exists x, choice seq draw = Some x.
Proof.
  intros N. unfold choice. destruct seq as [|a seq]; [contradiction|].
  destruct (nth_error (a :: seq) (draw mod length (a :: seq))) as [x|] eqn:E.
  - now exists x.
  - apply nth_error_None in E.
    pose proof (Nat.mod_upper_bound draw (length (a :: seq))) as B.
    cbn [length] in *. lia.
Qed.

Lemma dict_lookup_set_same {V : Type} (d : list (string * V)) (k : string)
  (v : V) :
  dict_lookup String.eqb (dict_set String.eqb d k v) k = Some v.
Proof.
  induction d as [|[k' v'] d IH]; cbn.
  - now rewrite String.eqb_refl.
  - destruct (String.eqb k' k) eqn:E; cbn; now rewrite E.
Qed.

Lemma dict_lookup_set_other {V : Type} (d : list (string * V))
  (k k' : string) (v : V) :
  k' <> k ->
  dict_lookup String.eqb (dict_set String.eqb d k v) k' =
  dict_lookup String.eqb d k'.
Proof.
  intros N. induction d as [|[k0 v0] d IH]; cbn.
  - destruct (String.eqb_spec k k'); [congruence | reflexivity].
  - destruct (String.eqb_spec k0 k) as [->|Nk]; cbn.
    + destruct (String.eqb_spec k k'); [congruence | reflexivity].
    + now rewrite IH.
Qed.

Lemma dict_set_keys {V : Type} (d : list (string * V)) (k : string) (v : V) :
  map fst (dict_set String.eqb d k v) =
  if str_in k (map fst d) then map fst d else (map fst d ++ [k])%list.
Proof.
  unfold str_in. induction d as [|[k' v'] d IH]; cbn; [reflexivity|].
  rewrite (String.eqb_sym k k').
  destruct (String.eqb_spec k' k) as [->|N]; cbn; [reflexivity|].
  rewrite IH. now destruct (existsb _ _).
Qed.

Lemma dict_lookup_in {V : Type} (d : list (string * V)) (k : string) (v : V) :
  dict_lookup String.eqb d k = Some v -> In (k, v) d.
Proof.
  induction d as [|[k' v'] d IH]; cbn; [discriminate|].
  destruct (String.eqb_spec k' k) as [->|N].
  - intros H. injection H as ->. now left.
  - intros H. right. now apply IH.
Qed.

(** ** Event generation *)

Lemma zone_choice (env : DisasterEnvironment) (draw : nat) :
  zones env = zones DisasterEnvironment_init ->
  exists zone_id zi,
    choice (map fst (zones env)) draw = Some zone_id /\
    dict_lookup String.eqb (zones env) zone_id = Some zi /\
    In (zone_id, zi) (zones env) /\
    In zone_id ZONE_IDS.
Proof.
  intros ->. unfold choice.
  cbn [zones DisasterEnvironment_init map fst length].
  pose proof (Nat.mod_upper_bound draw 5) as B.
  destruct (draw mod 5) as [|[|[|[|[|n]]]]]; [| | | | |lia];
    cbn [nth_error]; eexists _, _;
    (split; [reflexivity|]); (split; [reflexivity|]); cbn; auto 10.
Qed.

Lemma disaster_choice (draw : nat) :
  exists disaster,
    choice DISASTER_CHOICES draw = Some disaster /\
    In disaster DISASTER_CHOICES.
Proof.
  destruct (choice_some DISASTER_CHOICES draw) as [x E]; [discriminate|].
  exists x. split; [exact E | now apply choice_in in E].
Qed.

Lemma severity_choice (draw : nat) :
  exists severity,
    choice SEVERITY_CHOICES draw = Some severity /\
    In severity SEVERITY_CHOICES.
Proof.
  destruct (choice_some SEVERITY_CHOICES draw) as [x E]; [discriminate|].
  exists x. split; [exact E | now apply choice_in in E].
Qed.

(** The two ways a call of [generate_event] can go. *)
Lemma generate_event_cases (d : Draws) (env : DisasterEnvironment)
  (w : World) :
  zones env = zones DisasterEnvironment_init ->
  exists zone_id zi,
    In (zone_id, zi) (zones env) /\
    In zone_id ZONE_IDS /\
    risk_hit env d = float_lt (risk_roll d) (base_risk zi) /\
    ((float_lt (risk_roll d) (base_risk zi) = false /\
      generate_event d env w = (Ok None, env, w)) \/
     (float_lt (risk_roll d) (base_risk zi) = true /\
      exists disaster severity,
        In disaster DISASTER_CHOICES /\
        In severity SEVERITY_CHOICES /\
        generate_event d env w =
          (Ok (Some (mkEvent zone_id (name zi) disaster severity
                             (now w (ticks w)) (temperature_reading d)
                             (water_level_reading d) (seismic_reading d))),
           mkEnvironment
             (zones env)
             (dict_set String.eqb (active_disasters env) zone_id
                (mkEvent zone_id (name zi) disaster severity
                         (now w (ticks w)) (temperature_reading d)
                         (water_level_reading d) (seismic_reading d))),
           exec strftime_now w))).
Proof.
  intros Z.
  destruct (zone_choice env (zone_draw d) Z) as (zone_id & zi & C & L & I & K).
  exists zone_id, zi. split; [exact I|]. split; [exact K|].
  unfold risk_hit, generate_event. rewrite C, L. split; [reflexivity|].
  destruct (float_lt (risk_roll d) (base_risk zi)); [right | now left].
  split; [reflexivity|].
  destruct (disaster_choice (disaster_draw d)) as (dis & -> & Id).
  destruct (severity_choice (severity_draw d)) as (sev & -> & Is).
  now exists dis, sev.
Qed.

Lemma chosen_disaster_not_none (disaster : DisasterType.t) :
  In disaster DISASTER_CHOICES -> disaster <> DisasterType.NONE.
Proof. intros I ->. cbn in I. intuition discriminate. Qed.

Lemma chosen_severity_range (severity : SeverityLevel.t) :
  In severity SEVERITY_CHOICES ->
  (1 <= SeverityLevel.value severity <= 4)%Z.
Proof.
  intros I. cbn in I. destruct I as [<-|[<-|[<-|[<-|[]]]]]; cbn; lia.
Qed.

(** X11. With the zones the constructor sets up, [generate_event] never
    raises.  It draws one of the five zones; when the roll is not below the
    base risk of that zone it returns nothing and changes neither the
    environment nor the world; otherwise it returns an event for that zone,
    with the display name of the zone, a kind among Flood, Earthquake, Fire
    and Landslide (never [NONE]), a severity from Low to Critical, the
    current clock reading as timestamp and the readings drawn, having read
    the clock once and touched nothing of the agent. *)
Theorem generate_event_outcome (d : Draws) (env : DisasterEnvironment)
  (w : World) :
  zones env = zones DisasterEnvironment_init ->
  exists zone_id zi,
    In (zone_id, zi) (zones env) /\
    In zone_id ZONE_IDS /\
    risk_hit env d = float_lt (risk_roll d) (base_risk zi) /\
    ((float_lt (risk_roll d) (base_risk zi) = false /\
      generate_event d env w = (Ok None, env, w)) \/
     (float_lt (risk_roll d) (base_risk zi) = true /\
      exists e env' w',
        generate_event d env w = (Ok (Some e), env', w') /\
        zone e = zone_id /\
        zone_name e = name zi /\
        In (disaster_type e) DISASTER_CHOICES /\
        disaster_type e <> DisasterType.NONE /\
        In (severity e) SEVERITY_CHOICES /\
        (1 <= SeverityLevel.value (severity e) <= 4)%Z /\
        timestamp e = now w (ticks w) /\
        temperature e = temperature_reading d /\
        water_level e = water_level_reading d /\
        seismic e = seismic_reading d /\
        zones env' = zones env /\
        self w' = self w /\
        stdout w' = stdout w /\
        ticks w' = S (ticks w))).
Proof.
  intros Z.
  destruct (generate_event_cases d env w Z)
    as (zone_id & zi & I & K & R & O).
  exists zone_id, zi. split; [exact I|]. split; [exact K|].
  split; [exact R|].
  destruct O as [O|(F & dis & sev & Id & Is & O)]; [now left | right].
  split; [exact F|]. eexists _, _, _. split; [exact O|]. cbn.
  pose proof (chosen_disaster_not_none dis Id).
  pose proof (chosen_severity_range sev Is).
  repeat split; auto; lia.
Qed.

(** The sample draws on the fresh environment. *)
Lemma generate_event_outcome_witness :
  zones DisasterEnvironment_init = zones DisasterEnvironment_init /\
  exists zone_id zi,
    In (zone_id, zi) (zones DisasterEnvironment_init) /\
    In zone_id ZONE_IDS /\
    risk_hit DisasterEnvironment_init sample_draws
      = float_lt (risk_roll sample_draws) (base_risk zi).
Proof.
  assert (Z : zones DisasterEnvironment_init = zones DisasterEnvironment_init)
    by reflexivity.
  split; [exact Z|].
  destruct (generate_event_outcome sample_draws DisasterEnvironment_init
              fresh_agent Z) as (zone_id & zi & I & K & R & _).
  exists zone_id, zi. split; [exact I|]. split; [exact K | exact R].
Defined.

Lemma base_risk_bounds (env : DisasterEnvironment) (zone_id : string)
  (zi : ZoneInfo) :
  zones env = zones DisasterEnvironment_init ->
  In (zone_id, zi) (zones env) ->
  QArith_base.Qle double_0_2 (base_risk zi) /\
  QArith_base.Qle (base_risk zi) double_0_4.
Proof.
  intros -> I. cbn in I.
  repeat (destruct I as [I|I];
          [injection I as <- <-; split; apply QArith_base.Qle_bool_iff;
           vm_compute; reflexivity|]).
  destruct I.
Qed.

(** X12. Whatever zone is drawn, a roll at or above the double [0.4], the
    largest base risk, yields no event, and a roll below the double [0.2],
    the smallest base risk, always yields one. *)
Theorem generate_event_thresholds (d : Draws) (env : DisasterEnvironment)
  (w : World) :
  zones env = zones DisasterEnvironment_init ->
  (QArith_base.Qle double_0_4 (risk_roll d) ->
     generate_event d env w = (Ok None, env, w)) /\
  (QArith_base.Qlt (risk_roll d) double_0_2 ->
     exists e env' w', generate_event d env w = (Ok (Some e), env', w')).
Proof.
  intros Z.
  destruct (generate_event_cases d env w Z)
    as (zone_id & zi & I & _ & _ & O).
  destruct (base_risk_bounds env zone_id zi Z I) as [Lo Hi].
  split; intros H.
  - destruct O as [[_ O]|[F _]]; [exact O|].
    unfold float_lt in F. apply negb_true_iff in F.
    assert (T : QArith_base.Qle_bool (base_risk zi) (risk_roll d) = true).
    { apply QArith_base.Qle_bool_iff.
      eapply QArith_base.Qle_trans; [exact Hi | exact H]. }
    congruence.
  - destruct O as [[F _]|[_ (dis & sev & _ & _ & O)]]; [|now eauto].
    unfold float_lt in F. apply negb_false_iff in F.
    apply QArith_base.Qle_bool_iff in F.
    exfalso. apply (QArith_base.Qlt_irrefl (risk_roll d)).
    eapply QArith_base.Qlt_le_trans; [exact H|].
    eapply QArith_base.Qle_trans; [exact Lo | exact F].
Qed.

(** The quiet draws, whose roll is 1/2. *)
Lemma generate_event_thresholds_witness :
  zones DisasterEnvironment_init = zones DisasterEnvironment_init /\
  QArith_base.Qle double_0_4 (risk_roll quiet_draws) /\
  generate_event quiet_draws DisasterEnvironment_init fresh_agent
    = (Ok None, DisasterEnvironment_init, fresh_agent).
Proof.
  assert (Z : zones DisasterEnvironment_init = zones DisasterEnvironment_init)
    by reflexivity.
  assert (H : QArith_base.Qle double_0_4 (risk_roll quiet_draws))
    by (apply QArith_base.Qle_bool_iff; vm_compute; reflexivity).
  split; [exact Z|]. split; [exact H|].
  exact (proj1 (generate_event_thresholds quiet_draws DisasterEnvironment_init
                  fresh_agent Z) H).
Defined.

(** ** The registry of active disasters *)

Lemma registry_ok_generate (d : Draws) (env : DisasterEnvironment)
  (w : World) :
  registry_ok env -> registry_ok (snd (fst (generate_event d env w))).
Proof.
  intros (Z & N & I & F).
  destruct (generate_event_cases d env w Z)
    as (zone_id & zi & _ & K & _ & O).
  destruct O as [[_ ->]|(_ & dis & sev & _ & _ & ->)]; cbn [fst snd].
  - now repeat split.
  - unfold registry_ok. cbn [zones active_disasters].
    rewrite dict_set_keys. split; [exact Z|].
    destruct (str_in zone_id (map fst (active_disasters env))) eqn:E.
    + split; [exact N|]. split; [exact I|].
      clear N I E. induction (active_disasters env) as [|[k e] l IH];
        cbn; [now repeat constructor|].
      apply Forall_cons_iff in F. destruct F as [Fk F].
      destruct (String.eqb_spec k zone_id) as [->|Nk].
      * now constructor.
      * constructor; [exact Fk | now apply IH].
    + split; [|split].
      * apply NoDup_app; [exact N | repeat constructor; intros [] | ].
        intros x Hx [<-|[]].
        apply str_in_In in Hx. congruence.
      * apply incl_app; [exact I|]. intros x [<-|[]]. exact K.
      * clear N I E. induction (active_disasters env) as [|[k e] l IH];
          cbn; [now repeat constructor|].
        apply Forall_cons_iff in F. destruct F as [Fk F].
        destruct (String.eqb_spec k zone_id) as [->|Nk].
        -- now constructor.
        -- constructor; [exact Fk | now apply IH].
Qed.

Lemma registry_ok_generate_all (ds : list Draws) (env : DisasterEnvironment)
  (w : World) :
  registry_ok env -> registry_ok (fst (generate_all ds env w)).
Proof.
  unfold generate_all. revert env w.
  induction ds as [|d ds IH]; intros env w R; [exact R|].
  cbn [fold_left fst snd].
  pose proof (registry_ok_generate d env w R) as R1.
  destruct (generate_event d env w) as [[r env1] w1]. cbn [fst snd] in R1.
  now apply IH.
Qed.

(** X13. An event that [generate_event] returns is recorded in
    [active_disasters] under its zone, replacing the event recorded for that
    zone before, and the entries of the other zones are untouched.  After
    any number of calls on a fresh environment the registry has at most one
    entry per zone, so at most five, each under the zone of its event. *)
Theorem registry_keeps_latest_event_per_zone :
  (forall d env w e env' w',
     zones env = zones DisasterEnvironment_init ->
     generate_event d env w = (Ok (Some e), env', w') ->
     dict_lookup String.eqb (active_disasters env') (zone e) = Some e /\
     (forall k, k <> zone e ->
        dict_lookup String.eqb (active_disasters env') k =
        dict_lookup String.eqb (active_disasters env) k)) /\
  (forall ds w,
     let env := fst (generate_all ds DisasterEnvironment_init w) in
     NoDup (map fst (active_disasters env)) /\
     length (active_disasters env) <= 5 /\
     (forall k e,
        dict_lookup String.eqb (active_disasters env) k = Some e ->
        zone e = k /\ In k ZONE_IDS)).
Proof.
  split.
  - intros d env w e env' w' Z G.
    destruct (generate_event_cases d env w Z)
      as (zone_id & zi & _ & _ & _ & O).
    destruct O as [[_ O]|(_ & dis & sev & _ & _ & O)];
      rewrite O in G; [discriminate|].
    injection G as <- <- <-. cbn [zone active_disasters]. split.
    + apply dict_lookup_set_same.
    + intros k N. now apply dict_lookup_set_other.
  - intros ds w. cbn zeta.
    assert (R : registry_ok DisasterEnvironment_init).
    { repeat split; cbn; [constructor | intros x [] | constructor]. }
    apply (registry_ok_generate_all ds _ w) in R.
    destruct R as (_ & N & I & F). split; [exact N|]. split.
    + rewrite <- (length_map fst).
      change 5 with (length ZONE_IDS). now apply NoDup_incl_length.
    + intros k e L. apply dict_lookup_in in L.
      rewrite Forall_forall in F. split; [exact (F _ L)|].
      apply I. change k with (fst (k, e)). now apply in_map.
Qed.

(** The sample draws on the fresh environment record a fire in Zone-D. *)
Lemma registry_keeps_latest_event_per_zone_witness :
  exists e env' w',
    zones DisasterEnvironment_init = zones DisasterEnvironment_init /\
    generate_event sample_draws DisasterEnvironment_init fresh_agent
      = (Ok (Some e), env', w') /\
    dict_lookup String.eqb (active_disasters env') (zone e) = Some e.
Proof.
  eexists _, _, _.
  assert (Z : zones DisasterEnvironment_init = zones DisasterEnvironment_init)
    by reflexivity.
  assert (G : generate_event sample_draws DisasterEnvironment_init fresh_agent
              = (Ok (Some _), _, _)) by (vm_compute; reflexivity).
  split; [exact Z|]. split; [exact G|].
  destruct registry_keeps_latest_event_per_zone as [R _].
  exact (proj1 (R _ _ _ _ _ _ Z G)).
Defined.

(** ** Generated events as alerts *)

(** X14. An event returned by [generate_event] never takes the fallbacks of
    the agent: delivered as an alert it queues a goal of priority between 1
    and 4 whose kind is not GENERAL_RESCUE, for the zone of the event, and
    the response computed for it has the three base actions of its kind, so
    between three and six actions and never the generic one. *)
Theorem generated_events_avoid_fallbacks (d : Draws)
  (env env' : DisasterEnvironment) (w w' : World) (e : DisasterEvent)
  (agent : World) :
  generate_event d env w = (Ok (Some e), env', w') ->
  (exists goal,
     goals (self (exec (receive_alert (Some e)) agent)) =
       (goals (self agent) ++ [goal])%list /\
     (1 <= priority goal <= 4)%Z /\
     goal_type goal <> "GENERAL_RESCUE" /\
     target_zone goal = zone e) /\
  3 <= length (_get_response_actions (disaster_type e) (severity e)) <= 6 /\
  ~ In "Initiating general rescue protocol"
       (_get_response_actions (disaster_type e) (severity e)).
Proof.
  intros G. unfold generate_event in G.
  destruct (choice (map fst (zones env)) (zone_draw d)) as [zone_id|];
    [|discriminate].
  destruct (dict_lookup String.eqb (zones env) zone_id) as [zi|];
    [|discriminate].
  destruct (float_lt (risk_roll d) (base_risk zi)); [|discriminate].
  destruct (choice DISASTER_CHOICES (disaster_draw d)) as [dis|] eqn:Cd;
    [|discriminate].
  destruct (choice SEVERITY_CHOICES (severity_draw d)) as [sev|] eqn:Cs;
    [|discriminate].
  injection G as <- _ _.
  apply choice_in in Cd. apply choice_in in Cs.
  cbn [disaster_type severity zone].
  assert (Hd : dis = DisasterType.FLOOD \/ dis = DisasterType.EARTHQUAKE \/
               dis = DisasterType.FIRE \/ dis = DisasterType.LANDSLIDE)
    by (cbn in Cd; intuition auto).
  assert (Hs : sev = SeverityLevel.LOW \/ sev = SeverityLevel.MODERATE \/
               sev = SeverityLevel.HIGH \/ sev = SeverityLevel.CRITICAL)
    by (cbn in Cs; intuition auto).
  split; [|split].
  - unfold exec. rewrite receive_alert_some. cbn [snd].
    eexists. split.
    + destruct (String.eqb _ _); fsm; reflexivity.
    + cbn [new_goal priority goal_type target_zone disaster_type severity
           zone].
      destruct Hd as [-> | [-> | [-> | ->]]], Hs as [-> | [-> | [-> | ->]]];
        cbn; repeat split; try lia; discriminate.
  - destruct Hd as [-> | [-> | [-> | ->]]], Hs as [-> | [-> | [-> | ->]]]; cbn; lia.
  - destruct Hd as [-> | [-> | [-> | ->]]], Hs as [-> | [-> | [-> | ->]]]; cbn;
      intuition discriminate.
Qed.

(** The event of the sample draws delivered to the fresh agent. *)
Lemma generated_events_avoid_fallbacks_witness :
  exists e env' w',
    generate_event sample_draws DisasterEnvironment_init fresh_agent
      = (Ok (Some e), env', w') /\
    3 <= length (_get_response_actions (disaster_type e) (severity e)) <= 6.
Proof.
  eexists _, _, _.
  assert (G : generate_event sample_draws DisasterEnvironment_init fresh_agent
              = (Ok (Some _), _, _)) by (vm_compute; reflexivity).
  split; [exact G|].
  exact (proj1 (proj2 (generated_events_avoid_fallbacks _ _ _ _ _ _
                         fresh_agent G))).
Defined.

(** ** The simulation loop *)

Lemma for_each_print (lines : list string) (w : World) :
  for_each lines print w =
  (Ok tt, mkWorld (self w) (now w) (ticks w) (stdout w ++ lines)).
Proof.
  revert w. induction lines as [|l lines IH]; intros w.
  - cbn. rewrite app_nil_r. now destruct w.
  - cbn [for_each]. unfold bind, print at 1. rewrite IH.
    cbn [self now ticks stdout]. now rewrite <- app_assoc.
Qed.

Lemma risk_hit_zones (env1 env2 : DisasterEnvironment) (d : Draws) :
  zones env1 = zones env2 -> risk_hit env1 d = risk_hit env2 d.
Proof. unfold risk_hit. now intros ->. Qed.

Lemma scan_cases (d : Draws) (sensor : SensorAgent) (w : World) :
  zones (environment sensor) = zones DisasterEnvironment_init ->
  exists event env' w',
    scan d sensor w = (Ok event, mkSensor env' (scan_count sensor + 1), w') /\
    zones env' = zones DisasterEnvironment_init /\
    self w' = self w /\
    risk_hit DisasterEnvironment_init d =
      match event with Some _ => true | None => false end.
Proof.
  intros Z. unfold scan.
  rewrite <- (risk_hit_zones _ _ d Z).
  destruct (generate_event_cases d (environment sensor) w Z)
    as (zone_id & zi & _ & _ & R & O).
  rewrite R.
  destruct O as [[F ->]|(F & dis & sev & _ & _ & ->)]; rewrite F;
    eexists _, _, _; (split; [reflexivity|]); now repeat split.
Qed.

Lemma simulation_cycles_run (fuel : nat) (draws : nat -> Draws)
  (num_cycles : nat) (cs : list nat) (sensor : SensorAgent) (w : World) :
  3 <= fuel ->
  zones (environment sensor) = zones DisasterEnvironment_init ->
  current_state (self w) = STATE_IDLE ->
  active_goal (self w) = None ->
  exists sensor' w',
    simulation_cycles fuel draws num_cycles cs sensor w
      = Some (Ok tt, sensor', w') /\
    scan_count sensor' = scan_count sensor + length cs /\
    zones (environment sensor') = zones DisasterEnvironment_init /\
    current_state (self w') = STATE_IDLE /\
    active_goal (self w') = None /\
    completed_missions (self w') =
      completed_missions (self w)
      + length (filter (fun c => risk_hit DisasterEnvironment_init (draws c))
                       cs) /\
    length (goals (self w')) = length (goals (self w)) /\
    length (state_history (self w')) =
      length (state_history (self w))
      + 5 * length (filter (fun c => risk_hit DisasterEnvironment_init
                                       (draws c)) cs).
Proof.
  intros F. revert sensor w.
  induction cs as [|c cs IH]; intros sensor w Z S A.
  - exists sensor, w. cbn. repeat split; auto; lia.
  - cbn [simulation_cycles]. unfold exec at 1. rewrite for_each_print.
    cbn [snd].
    set (w0 := mkWorld (self w) (now w) (ticks w)
                       (stdout w ++ cycle_banner c num_cycles)).
    destruct (scan_cases (draws c) sensor w0 Z)
      as (event & env1 & w1 & -> & Z1 & E1 & H).
    change (self w0) with (self w) in E1. clearbody w0.
    cbn [filter]. rewrite H.
    assert (S1 : current_state (self w1) = STATE_IDLE) by now rewrite E1.
    assert (A1 : active_goal (self w1) = None) by now rewrite E1.
    destruct event as [event|].
    + destruct (mission_cycle w1 event fuel S1 F)
        as (w3 & R & _ & S3 & A3 & C3 & G3 & (t1 & r1 & t2 & r2 & t3 & r3
            & t4 & t5 & H3)).
      pose proof (run_op_returns (OpReceiveAlert (Some event)) w1) as O.
      unfold outcome, exec in *. cbn [run_op] in O.
      destruct (receive_alert (Some event) w1) as [r w2].
      cbn [fst snd] in *. subst r. rewrite R.
      destruct (IH (mkSensor env1 (scan_count sensor + 1)) w3 Z1 S3 A3)
        as (sensor' & w' & R' & N' & Z' & S' & A' & C' & G' & H').
      exists sensor', w'. split; [exact R'|].
      cbn [scan_count length] in *. rewrite E1 in *.
      rewrite H3, length_app in H'. cbn [length] in H'.
      repeat split; auto; lia.
    + rewrite receive_alert_none, (run_until_idle_done fuel w1 S1).
      destruct (IH (mkSensor env1 (scan_count sensor + 1)) w1 Z1 S1 A1)
        as (sensor' & w' & R' & N' & Z' & S' & A' & C' & G' & H').
      exists sensor', w'. split; [exact R'|].
      cbn [scan_count length] in *. rewrite E1 in *.
      repeat split; auto; lia.
Qed.

(** X15. The loop of [run_simulation], started with a fresh sensor,
    environment and agent and given at least three dispatcher steps per
    cycle, runs all its cycles without raising, whatever the generator
    draws.  The sensor has then scanned once per cycle; the agent is Idle
    with an empty queue and no active goal; [completed_missions] is the
    number of cycles whose roll fell below the base risk of the zone drawn,
    hence at most the number of cycles; and the history has one entry plus
    five per mission. *)
Theorem simulation_loop_summary (fuel : nat) (draws : nat -> Draws)
  (num_cycles : nat) (id : string) (clock : nat -> string) :
  3 <= fuel ->
  exists sensor' w',
    simulation_loop fuel draws num_cycles
      (SensorAgent_init DisasterEnvironment_init) (RescueAgent_init id clock)
      = Some (Ok tt, sensor', w') /\
    scan_count sensor' = num_cycles /\
    current_state (self w') = STATE_IDLE /\
    goals (self w') = [] /\
    active_goal (self w') = None /\
    completed_missions (self w') =
      length (filter (fun c => risk_hit DisasterEnvironment_init (draws c))
                     (seq 1 num_cycles)) /\
    completed_missions (self w') <= num_cycles /\
    length (state_history (self w')) = 1 + 5 * completed_missions (self w').
Proof.
  intros F. unfold simulation_loop.
  destruct (simulation_cycles_run fuel draws num_cycles (seq 1 num_cycles)
              (SensorAgent_init DisasterEnvironment_init)
              (RescueAgent_init id clock) F eq_refl eq_refl eq_refl)
    as (sensor' & w' & R & N & _ & S & A & C & G & H).
  exists sensor', w'. rewrite length_seq in N. cbn in N, C, G, H.
  repeat split; auto.
  - now apply length_zero_iff_nil.
  - rewrite C. etransitivity; [apply filter_length_le|].
    now rewrite length_seq.
  - rewrite H, C. reflexivity.
Qed.

(** Eight cycles, as in the source, with the sample draws at every scan. *)
Lemma simulation_loop_summary_witness :
  3 <= 3 /\
  exists sensor' w',
    simulation_loop 3 (fun _ => sample_draws) 8
      (SensorAgent_init DisasterEnvironment_init) fresh_agent
      = Some (Ok tt, sensor', w') /\
    scan_count sensor' = 8.
Proof.
  assert (F : 3 <= 3) by lia.
  split; [exact F|].
  destruct (simulation_loop_summary 3 (fun _ => sample_draws) 8
              "RescueAgent-01" sample_clock F)
    as (sensor' & w' & R & N & _).
  exists sensor', w'. split; [exact R | exact N].
Defined.

(** ** A backlog is not drained in Idle *)

Lemma cycles_idle (n : nat) (w : World) :
  current_state (self w) = STATE_IDLE -> cycles n w = w.
Proof.
  intros S. induction n as [|n IH]; [reflexivity|].
  rewrite cycles_S. unfold exec. rewrite (cycle_from_idle w S). exact IH.
Qed.

(** X16. The dispatcher does nothing in Idle, also when goals are queued:
    any number of [run_fsm_cycle] calls leaves an Idle world exactly as it
    is, and the stepping loop returns at once.  A mission started from Idle
    serves one goal for the one it queues, so the number of queued goals
    after it is the number before it: goals queued during an earlier mission
    wait for later alerts. *)
Theorem idle_does_not_drain_queue (w : World) :
  current_state (self w) = STATE_IDLE ->
  (forall n, cycles n w = w) /\
  (forall fuel, run_until_idle fuel w = Some (Ok tt, w)) /\
  (forall event fuel,
     3 <= fuel ->
     exists w',
       run_until_idle fuel (exec (receive_alert (Some event)) w)
         = Some (Ok tt, w') /\
       current_state (self w') = STATE_IDLE /\
       length (goals (self w')) = length (goals (self w))).
Proof.
  intros S. split; [|split].
  - intros n. now apply cycles_idle.
  - intros fuel. now apply run_until_idle_done.
  - intros event fuel F.
    destruct (mission_cycle w event fuel S F)
      as (w' & R & _ & S' & _ & _ & G & _).
    now exists w'.
Qed.

(** An Idle agent with one goal left in its queue. *)
Lemma idle_does_not_drain_queue_witness :
  let w := cycles 3 (exec (receive_alert (Some fire_alert)) alerted_agent) in
  current_state (self w) = STATE_IDLE /\
  length (goals (self w)) = 1 /\
  cycles 5 w = w.
Proof.
  cbn zeta.
  assert (S : current_state
                (self (cycles 3 (exec (receive_alert (Some fire_alert))
                                      alerted_agent))) = STATE_IDLE)
    by (vm_compute; reflexivity).
  split; [exact S|]. split; [vm_compute; reflexivity|].
  exact (proj1 (idle_does_not_drain_queue _ S) 5).
Defined.
